(** * MySqlDB: a shallow embedding of the [database] package

    The package is a thin layer over Go's [database/sql]: it opens a
    connection from a [Configs] value, runs parameterised statements, and
    turns the rows of a cursor into generic records
    ([map[string]interface{}]).  The development follows the source file
    by file: values and nullable holders, the column-type switch of
    [makeRow], the cursor walk ([parseRowResults], [rowResultWalk],
    [getResultantRow], [getRowValue]), the connection facade ([Make],
    [MakeSchemaless], [SetSchema], [QueryRaw], [Row], [RowByStringField])
    and the record helpers ([MakeRecord], [Update]). *)

From Stdlib Require Import ZArith String Ascii List Bool Lia Permutation.
From Stdlib Require Import Floats.SpecFloat.
From stdpp Require Import base option list gmap strings.
From Equations.Prop Require Import Equations Logic.

Local Open Scope string_scope.
Local Open Scope Z_scope.
Local Open Scope list_scope.

(* ===================================================================== *)
(** * Errors and abnormal termination *)
(* ===================================================================== *)

(** A Go [error] value.  [errors_New] is an error built by this package
    with [errors.New]; the others come from [database/sql]: an error of
    the driver or of a conversion, and the three errors of [Rows.Scan]
    (no current row; a wrong number of destinations; a conversion error
    wrapped with the index of its column). *)
Inductive error : Type :=
| errors_New (msg : string)
| sql_error (msg : string)
| sql_ScanWithoutNext
| sql_ScanArity (expected got : nat)
| sql_ScanColumn (index : nat) (cause : error).

(** Why a call did not return: a runtime panic (index out of range, nil
    dereference) or [log.Fatal], which ends the process. *)
Inductive abort : Type :=
| RuntimePanic
| LogFatal (e : error).

(** The outcome of running a function body. *)
Inductive outcome (A : Type) : Type :=
| Returned (a : A)
| Aborted (why : abort).
Arguments Returned {A} a.
Arguments Aborted {A} why.

Definition obind {A B : Type} (m : outcome A) (k : A -> outcome B) : outcome B :=
  match m with
  | Returned a => k a
  | Aborted why => Aborted why
  end.

#[global] Instance outcome_ret : MRet outcome := @Returned.
#[global] Instance outcome_bind : MBind outcome := fun A B k m => obind m k.

(* ===================================================================== *)
(** * Values: [interface{}] and the nullable holders of [database/sql] *)
(* ===================================================================== *)

(** A 64-bit float is kept as its IEEE-754 datum; the package never does
    arithmetic on it. *)
Definition float64 : Type := spec_float.
Definition float64_zero : float64 := S754_zero false.

(** [sql.NullString], [sql.NullInt64], [sql.NullFloat64]: a payload and the
    [Valid] flag ([false] when the column was NULL). *)
Record NullString : Type := mkNullString { ns_String : string; ns_Valid : bool }.
Record NullInt64 : Type := mkNullInt64 { ni_Int64 : Z; ni_Valid : bool }.
Record NullFloat64 : Type := mkNullFloat64 { nf_Float64 : float64; nf_Valid : bool }.

(** The dynamic values the package stores in an [interface{}]: [nil], the
    three plain payloads, the three holders by value, and a (non-nil)
    pointer to such a value. *)
Inductive iface : Type :=
| INil
| IString (s : string)
| IInt64 (z : Z)
| IFloat64 (f : float64)
| INullString (h : NullString)
| INullInt64 (h : NullInt64)
| INullFloat64 (h : NullFloat64)
| IPtr (target : iface).

#[global] Instance float64_eq_dec : EqDecision float64.
Proof. unfold float64. solve_decision. Defined.
#[global] Instance NullString_eq_dec : EqDecision NullString.
Proof. solve_decision. Defined.
#[global] Instance NullInt64_eq_dec : EqDecision NullInt64.
Proof. solve_decision. Defined.
#[global] Instance NullFloat64_eq_dec : EqDecision NullFloat64.
Proof. solve_decision. Defined.
#[global] Instance iface_eq_dec : EqDecision iface.
Proof. solve_decision. Defined.

(** A generic record: [map[string]interface{}]. *)
Abbreviation GenericRecord := (gmap string iface).

(** [getRowValue]: [reflect.ValueOf(row)] has kind [Ptr] exactly for a
    pointer ([ValueOf] never yields kind [Interface]); [Elem] follows it,
    and the three type assertions return the payload field of the holder.
    The [Valid] field is not read. *)
Definition getRowValue (row : iface) : iface :=
  match row with
  | IPtr rowValue =>
      match rowValue with
      | INullString stringVal => IString (ns_String stringVal)
      | INullInt64 intVal => IInt64 (ni_Int64 intVal)
      | INullFloat64 floatVal => IFloat64 (nf_Float64 floatVal)
      | _ => rowValue
      end
  | _ => row
  end.

(* ===================================================================== *)
(** * The column-type switch of [makeRow] *)
(* ===================================================================== *)

(** Which holder a column is scanned into. *)
Inductive ScanKind : Type := KNullInt64 | KNullFloat64 | KNullString.

#[global] Instance ScanKind_eq_dec : EqDecision ScanKind.
Proof. solve_decision. Defined.

(** The [switch typeMapping[v]] of [makeRow], case by case in source
    order.  Go compares strings byte by byte. *)
Definition switch_kind (typeName : string) : ScanKind :=
  if String.eqb typeName "INT" then KNullInt64
  else if String.eqb typeName "BIT" then KNullInt64
  else if String.eqb typeName "TINYINT" then KNullInt64
  else if String.eqb typeName "BOOL" then KNullInt64
  else if String.eqb typeName "BOOLEAN" then KNullInt64
  else if String.eqb typeName "SMALLINT" then KNullInt64
  else if String.eqb typeName "MEDIUMINT" then KNullInt64
  else if String.eqb typeName "INTEGER" then KNullInt64
  else if String.eqb typeName "BIGINT" then KNullInt64
  else if String.eqb typeName "FLOAT" then KNullFloat64
  else if String.eqb typeName "DOUBLE" then KNullFloat64
  else if String.eqb typeName "DECIMAL" then KNullFloat64
  else if String.eqb typeName "DEC" then KNullFloat64
  else if String.eqb typeName "CHAR" then KNullString
  else if String.eqb typeName "VARCHAR" then KNullString
  else if String.eqb typeName "BINARY" then KNullString
  else if String.eqb typeName "VARBINARY" then KNullString
  else if String.eqb typeName "TINYBLOB" then KNullString
  else if String.eqb typeName "TINYTEXT" then KNullString
  else if String.eqb typeName "TEXT" then KNullString
  else if String.eqb typeName "BLOB" then KNullString
  else if String.eqb typeName "MEDIUMTEXT" then KNullString
  else if String.eqb typeName "MEDIUMBLOB" then KNullString
  else if String.eqb typeName "LONGTEXT" then KNullString
  else if String.eqb typeName "LONGBLOB" then KNullString
  else if String.eqb typeName "ENUM" then KNullString
  else if String.eqb typeName "SET" then KNullString
  else if String.eqb typeName "DATE" then KNullString
  else if String.eqb typeName "DATETIME" then KNullString
  else if String.eqb typeName "TIMESTAMP" then KNullString
  else if String.eqb typeName "TIME" then KNullString
  else if String.eqb typeName "YEAR" then KNullString
  else KNullString.

(** [var newCol sql.NullXxx; row = append(row, &newCol)]: a pointer to a
    zero-valued holder. *)
Definition newCol (k : ScanKind) : iface :=
  match k with
  | KNullInt64 => IPtr (INullInt64 (mkNullInt64 0 false))
  | KNullFloat64 => IPtr (INullFloat64 (mkNullFloat64 float64_zero false))
  | KNullString => IPtr (INullString (mkNullString "" false))
  end.

(** [typeMapping[v]]: a Go map read yields the zero value, the empty
    string, for a missing key. *)
Definition typeMapping_at (typeMapping : gmap string string) (v : string) : string :=
  default "" (typeMapping !! v).

Definition makeRow (typeMapping : gmap string string) (cols : list string) : list iface :=
  fold_left (fun row v => row ++ [newCol (switch_kind (typeMapping_at typeMapping v))])
            cols [].

(* ===================================================================== *)
(** * The cursor: [*sql.Rows] as the package uses it *)
(* ===================================================================== *)

(** A [driver.Value] delivered for one column of one row; [DNil] is the
    database NULL. *)
Inductive driver_Value : Type :=
| DNil
| DInt64 (z : Z)
| DFloat64 (f : float64)
| DBool (b : bool)
| DBytes (s : string)
| DString (s : string)
| DTime (unixNano : Z).

(** [*sql.ColumnType], read through [Name()] and [DatabaseTypeName()]. *)
Record ColumnType : Type := mkColumnType {
  ct_Name : string;
  ct_DatabaseTypeName : string
}.

(** The state of a cursor that a query has handed over.  [rs_columns] are
    the column descriptors of the result set; [rs_pending] are the rows
    [Next] has not delivered yet and [rs_fault] the fault, if any, that
    ends the stream after them; [rs_lastcols] is the current row;
    [rs_lasterr] is what [Err()] reports; [rs_closed] is the flag
    [closed] of the cursor and [rs_released] counts how many times the
    rows of the driver have been released. *)
Record Rows : Type := mkRows {
  rs_columns : list ColumnType;
  rs_pending : list (list driver_Value);
  rs_fault : option error;
  rs_lastcols : option (list driver_Value);
  rs_lasterr : option error;
  rs_closed : bool;
  rs_released : nat
}.

(** [errRowsClosed] and [lasterrOrErrLocked]: what a closed cursor
    answers, the error that ended the stream if there is one. *)
Definition errRowsClosed : error := sql_error "sql: Rows are closed".

Definition lasterrOrErr (rs : Rows) (err : error) : error :=
  default err (rs_lasterr rs).

(** [Columns()] and [ColumnTypes()] fail on a closed cursor, and only
    there. *)
Definition Rows_Columns (rs : Rows) : option (list string) * option error :=
  if rs_closed rs then (None, Some (lasterrOrErr rs errRowsClosed))
  else (Some (ct_Name <$> rs_columns rs), None).

Definition Rows_ColumnTypes (rs : Rows) : option (list ColumnType) * option error :=
  if rs_closed rs then (None, Some (lasterrOrErr rs errRowsClosed))
  else (Some (rs_columns rs), None).

Definition Rows_Err (rs : Rows) : option error := rs_lasterr rs.

(** [Close()]: the first call releases the rows of the driver; on a
    cursor that is closed already it does nothing.  A closed cursor has
    no current row. *)
Definition Rows_Close (rs : Rows) : Rows :=
  if rs_closed rs then rs
  else mkRows (rs_columns rs) (rs_pending rs) (rs_fault rs) None (rs_lasterr rs)
              true (S (rs_released rs)).

(** [Next]: on a closed cursor answer [false]; otherwise position the
    cursor on the next pending row; at the end of the stream record the
    fault, if any, close the cursor and answer [false]. *)
Definition Rows_Next (rs : Rows) : bool * Rows :=
  if rs_closed rs then (false, rs)
  else
    match rs_pending rs with
    | lastcols :: pending =>
        (true, mkRows (rs_columns rs) pending (rs_fault rs) (Some lastcols) (rs_lasterr rs)
                      false (rs_released rs))
    | [] =>
        (false, Rows_Close (mkRows (rs_columns rs) [] (rs_fault rs) None (rs_fault rs)
                                   false (rs_released rs)))
    end.

(** [sql.Result], read through [LastInsertId()] and [RowsAffected()]. *)
Record Result : Type := mkResult {
  res_LastInsertId : Z * option error;
  res_RowsAffected : Z * option error
}.

(** [*sql.DB]: what a statement or a query with its positional arguments
    answers on this connection. *)
Record DB : Type := mkDB {
  db_Exec : string -> list iface -> option Result * option error;
  db_Query : string -> list iface -> option Rows * option error
}.

(** What the package takes from outside the repository: the conversions
    of [database/sql] ([convertAssign] to a [string], an [int64] and a
    [float64] destination, for a source that is not NULL), [sql.Open], and
    the process environment read by [os.Getenv]. *)
Class Runtime : Type := {
  convertAssign_string : driver_Value -> error + string;
  convertAssign_int64 : driver_Value -> error + Z;
  convertAssign_float64 : driver_Value -> error + float64;
  sql_Open : string -> string -> option DB * option error;
  os_Getenv : string -> string
}.

Section Package.
Context {RT : Runtime}.

(** ** [Rows.Scan] into the holders *)

(** The [Scan] methods of the three holders: NULL resets the holder to
    its zero payload with [Valid = false]; any other value is converted
    into the payload with [Valid = true].  When the conversion fails the
    error is returned; the package then drops the holder unread. *)
Definition NullString_Scan (ns : NullString) (value : driver_Value) : NullString * option error :=
  match value with
  | DNil => (mkNullString "" false, None)
  | _ => match convertAssign_string value with
         | inr s => (mkNullString s true, None)
         | inl err => (mkNullString (ns_String ns) true, Some err)
         end
  end.

Definition NullInt64_Scan (n : NullInt64) (value : driver_Value) : NullInt64 * option error :=
  match value with
  | DNil => (mkNullInt64 0 false, None)
  | _ => match convertAssign_int64 value with
         | inr z => (mkNullInt64 z true, None)
         | inl err => (mkNullInt64 (ni_Int64 n) true, Some err)
         end
  end.

Definition NullFloat64_Scan (n : NullFloat64) (value : driver_Value) : NullFloat64 * option error :=
  match value with
  | DNil => (mkNullFloat64 float64_zero false, None)
  | _ => match convertAssign_float64 value with
         | inr f => (mkNullFloat64 f true, None)
         | inl err => (mkNullFloat64 (nf_Float64 n) true, Some err)
         end
  end.

(** [convertAssignRows dest src]: a destination that implements
    [sql.Scanner] is handed the source value.  The package only ever
    passes pointers to the three holders; any other destination is
    reported as unsupported. *)
Definition convertAssignRows (dest : iface) (src : driver_Value) : iface * option error :=
  match dest with
  | IPtr (INullString ns) =>
      let '(ns', err) := NullString_Scan ns src in (IPtr (INullString ns'), err)
  | IPtr (INullInt64 n) =>
      let '(n', err) := NullInt64_Scan n src in (IPtr (INullInt64 n'), err)
  | IPtr (INullFloat64 n) =>
      let '(n', err) := NullFloat64_Scan n src in (IPtr (INullFloat64 n'), err)
  | _ => (dest, Some (sql_error "unsupported Scan destination"))
  end.

(** The column loop of [Rows.Scan]: the first failing conversion stops it
    and is wrapped with the column index. *)
Fixpoint Scan_loop (i : nat) (dest : list iface) (lastcols : list driver_Value)
  : list iface * option error :=
  match dest, lastcols with
  | d :: dest', sv :: lastcols' =>
      let '(d', err) := convertAssignRows d sv in
      match err with
      | Some e => (d' :: dest', Some (sql_ScanColumn i e))
      | None =>
          let '(rest, err') := Scan_loop (S i) dest' lastcols' in
          (d' :: rest, err')
      end
  | _, _ => (dest, None)
  end.

(** [rowResult.Scan(row...)]: the destinations after the call and its
    error.  There must be a current row and as many destinations as
    columns. *)
Definition Rows_Scan (rs : Rows) (dest : list iface) : list iface * option error :=
  match rs_lastcols rs with
  | None => (dest, Some sql_ScanWithoutNext)
  | Some lastcols =>
      if negb (Nat.eqb (length dest) (length lastcols))
      then (dest, Some (sql_ScanArity (length lastcols) (length dest)))
      else Scan_loop 0 dest lastcols
  end.

(** ** The row materializer *)

(** [mapColTypes]: a later column of the same name overwrites the
    earlier entry. *)
Definition mapColTypes (colTypes : list ColumnType) : gmap string string :=
  fold_left (fun typeMapping v => <[ct_Name v := ct_DatabaseTypeName v]> typeMapping)
            colTypes ∅.

Definition getTypeMapping (rowResult : Rows) : option (gmap string string) * option error :=
  match Rows_ColumnTypes rowResult with
  | (_, Some err) => (None, Some err)
  | (colTypes, None) => (Some (mapColTypes (default [] colTypes)), None)
  end.

(** The loop [for _, v := range row] of [getResultantRow], with its
    counter; [cols[count]] panics when [count] is out of range. *)
Fixpoint getResultantRow_loop (cols : list string) (row : list iface) (count : nat)
    (resultRow : GenericRecord) : outcome GenericRecord :=
  match row with
  | [] => Returned resultRow
  | v :: row' =>
      let rowValue := getRowValue v in
      match cols !! count with
      | Some col => getResultantRow_loop cols row' (S count) (<[col := rowValue]> resultRow)
      | None => Aborted RuntimePanic
      end
  end.

Definition getResultantRow (cols : list string) (typeMapping : gmap string string)
    (rowResult : Rows) : outcome (option GenericRecord * option error) :=
  let row := makeRow typeMapping cols in
  let '(row, err) := Rows_Scan rowResult row in
  match err with
  | Some err => Returned (None, Some err)
  | None =>
      resultRow ← getResultantRow_loop cols row 0 ∅;
      Returned (Some resultRow, None)
  end.

(** ** The result walker *)

(** The [for rowResult.Next()] loop of [rowResultWalk] and the check of
    [rowResult.Err()] after it: what the body returns and the cursor at
    that point.  A nil map appended to the result reads as an empty map. *)
Equations? rowResultWalk_loop (cols : list string) (typeMapping : gmap string string)
    (rowResult : Rows) (result : list GenericRecord)
  : outcome ((option (list GenericRecord) * option error) * Rows)
  by wf (length (rs_pending rowResult)) lt :=
rowResultWalk_loop cols typeMapping rowResult result with inspect (Rows_Next rowResult) := {
  | exist _ (true, rowResult') Hnext with getResultantRow cols typeMapping rowResult' := {
      | Aborted why => Aborted why
      | Returned (_, Some err) => Returned ((None, Some err), rowResult')
      | Returned (resultRow, None) =>
          rowResultWalk_loop cols typeMapping rowResult' (result ++ [default ∅ resultRow])
    }
  | exist _ (false, rowResult') Hnext with Rows_Err rowResult' := {
      | Some err => Returned ((None, Some err), rowResult')
      | None => Returned ((Some result, None), rowResult')
    }
}.
Proof.
  unfold Rows_Next in Hnext.
  destruct (rs_closed rowResult); [discriminate|].
  destruct (rs_pending rowResult); inversion Hnext; simpl; lia.
Qed.

(** [rowResultWalk]: [defer rowResult.Close()] runs when the body
    returns; after an exhausted or faulted stream, which [Next] has
    closed, it has nothing left to release.  (It also runs when the body
    panics, but an aborted run carries no cursor to observe it on.) *)
Definition rowResultWalk (rowResult : Rows) (cols : list string)
    (typeMapping : gmap string string)
  : outcome ((option (list GenericRecord) * option error) * Rows) :=
  '(ret, rowResult') ← rowResultWalk_loop cols typeMapping rowResult [];
  Returned (ret, Rows_Close rowResult').

(** [parseRowResults]: the values returned and the cursor as the call
    leaves it. *)
Definition parseRowResults (rowResult : Rows)
  : outcome ((option (list GenericRecord) * option error) * Rows) :=
  match Rows_Columns rowResult with
  | (_, Some err) => Returned ((None, Some err), rowResult)
  | (cols, None) =>
      match getTypeMapping rowResult with
      | (_, Some err) => Returned ((None, Some err), rowResult)
      | (typeMapping, None) =>
          rowResultWalk rowResult (default [] cols) (default ∅ typeMapping)
      end
  end.

(** ** The connection facade *)

Record Configs : Type := mkConfigs {
  cfg_Host : string;
  cfg_Username : string;
  cfg_Password : string;
  cfg_Port : string;
  cfg_Database : string;
  cfg_Driver : string
}.

(** [Database]: [connection] is [None] for the nil pointer; [configs] is
    the [Configs] value the pointer leads to. *)
Record Database : Type := mkDatabase {
  connection : option DB;
  configs : Configs;
  Schemaless : bool
}.

Definition len (s : string) : nat := String.length s.

Definition Name (database : Database) : string := cfg_Database (configs database).

Definition hasAllConfigs (d : Database) (schemaless : bool) : bool :=
  let hasDB := if schemaless then true else Nat.ltb 0 (len (cfg_Database (configs d))) in
  hasDB &&
  Nat.ltb 0 (len (cfg_Driver (configs d))) &&
  Nat.ltb 0 (len (cfg_Host (configs d))) &&
  Nat.ltb 0 (len (cfg_Password (configs d))) &&
  Nat.ltb 0 (len (cfg_Port (configs d))) &&
  Nat.ltb 0 (len (cfg_Username (configs d))).

Definition with_configs (d : Database) (c : Configs) : Database :=
  mkDatabase (connection d) c (Schemaless d).

Definition setDBConfig (d : Database) (key value : string) : Database :=
  let c := configs d in
  if String.eqb key "host" then
    if Nat.ltb (len (cfg_Host c)) 1
    then with_configs d (mkConfigs value (cfg_Username c) (cfg_Password c) (cfg_Port c) (cfg_Database c) (cfg_Driver c))
    else d
  else if String.eqb key "username" then
    if Nat.ltb (len (cfg_Username c)) 1
    then with_configs d (mkConfigs (cfg_Host c) value (cfg_Password c) (cfg_Port c) (cfg_Database c) (cfg_Driver c))
    else d
  else if String.eqb key "password" then
    if Nat.ltb (len (cfg_Password c)) 1
    then with_configs d (mkConfigs (cfg_Host c) (cfg_Username c) value (cfg_Port c) (cfg_Database c) (cfg_Driver c))
    else d
  else if String.eqb key "port" then
    if Nat.ltb (len (cfg_Port c)) 1
    then with_configs d (mkConfigs (cfg_Host c) (cfg_Username c) (cfg_Password c) value (cfg_Database c) (cfg_Driver c))
    else d
  else if String.eqb key "database" then
    if Nat.ltb (len (cfg_Database c)) 1
    then with_configs d (mkConfigs (cfg_Host c) (cfg_Username c) (cfg_Password c) (cfg_Port c) value (cfg_Driver c))
    else d
  else if String.eqb key "driver" then
    if Nat.ltb (len (cfg_Driver c)) 1
    then with_configs d (mkConfigs (cfg_Host c) (cfg_Username c) (cfg_Password c) (cfg_Port c) (cfg_Database c) value)
    else d
  else d.

(** [getEnvVars]: one [os.Getenv] per entry of the input map. *)
Definition getEnvVars (input : list (string * string)) : gmap string string :=
  fold_left (fun result '(inputName, varName) => <[inputName := os_Getenv varName]> result)
            input ∅.

Definition envConfigs : gmap string string :=
  getEnvVars [("host", "DB_HOST"); ("username", "DB_USERNAME");
              ("password", "DB_PASSWORD"); ("port", "DB_PORT");
              ("database", "DB_DATABASE"); ("driver", "DB_CONNECTION")].

(** Go leaves the order in which [range] visits a map unspecified:
    [visit] is an order in which a [range] may visit the entries of [m]. *)
Definition range_of {V : Type} (m : gmap string V) (visit : list (string * V)) : Prop :=
  visit ≡ₚ map_to_list m.

(** [supplementConfigs], run with the order [visit] in which the loop
    [for key, value := range envVars] meets the entries. *)
Definition supplementConfigs (visit : list (string * string)) (d : Database)
    (schemaless : bool) : Database :=
  fold_left (fun d '(key, value) =>
               if String.eqb key "database" && schemaless then d
               else setDBConfig d key value)
            visit d.

(** [setConfigs]; the repository's other copy of the file reads
    [d.Schemaless] where this one takes the parameter, and [Make] and
    [MakeSchemaless] pass the value of that field. *)
Definition setConfigs (visit : list (string * string)) (d : Database)
    (schemaless : bool) : Database :=
  if hasAllConfigs d schemaless then d
  else supplementConfigs visit d schemaless.

(** [connect]: [fmt.Sprintf("%s:%s@tcp(%s:%s)/", ...)], the schema name
    appended unless schemaless, [sql.Open], and [log.Fatal] on its error. *)
Definition connectionString (d : Database) : string :=
  let connectionString :=
    cfg_Username (configs d) +:+ ":" +:+ cfg_Password (configs d) +:+ "@tcp(" +:+
    cfg_Host (configs d) +:+ ":" +:+ cfg_Port (configs d) +:+ ")/" in
  if negb (Schemaless d) then connectionString +:+ cfg_Database (configs d)
  else connectionString.

Definition connect (d : Database) : outcome Database :=
  let '(connection, err) := sql_Open (cfg_Driver (configs d)) (connectionString d) in
  let d := mkDatabase connection (configs d) (Schemaless d) in
  match err with
  | Some err => Aborted (LogFatal err)
  | None => Returned d
  end.

Definition Make (visit : list (string * string)) (configs : Configs)
  : outcome (Database * option error) :=
  let database := mkDatabase None configs false in
  let database := setConfigs visit database false in
  database ← connect database;
  Returned (database, None).

Definition MakeSchemaless (visit : list (string * string)) (configs : Configs)
  : outcome (Database * option error) :=
  let database := mkDatabase None configs true in
  let database := setConfigs visit database true in
  database ← connect database;
  Returned (database, None).

Definition SetSchema (d : Database) (schemaName : string) : outcome Database :=
  let c := configs d in
  let d := with_configs d (mkConfigs (cfg_Host c) (cfg_Username c) (cfg_Password c)
                                     (cfg_Port c) schemaName (cfg_Driver c)) in
  let d := mkDatabase (connection d) (configs d) false in
  connect d.

(** [Exec] and [getRows]: a nil slice of arguments is [None]; calling a
    method of a nil [*sql.DB] panics. *)
Definition Exec (d : Database) (query : string) (inserts : option (list iface))
  : outcome (option Result * option error) :=
  match connection d with
  | None => Aborted RuntimePanic
  | Some conn =>
      match inserts with
      | Some inserts => Returned (db_Exec conn query inserts)
      | None => Returned (db_Exec conn query [])
      end
  end.

Definition getRows (d : Database) (query : string) (escaped : option (list iface))
  : outcome (option Rows * option error) :=
  match connection d with
  | None => Aborted RuntimePanic
  | Some conn =>
      match escaped with
      | Some escaped =>
          match db_Query conn query escaped with
          | (_, Some err) => Returned (None, Some err)
          | (rows, None) => Returned (rows, None)
          end
      | None =>
          match db_Query conn query [] with
          | (_, Some err) => Returned (None, Some err)
          | (rows, None) => Returned (rows, None)
          end
      end
  end.

(** [getRowResult]: the value [getRows] returns without error is always
    a [*sql.Rows] held in an [interface{}], for which [CanInterface] and
    the type assertion both succeed. *)
Definition getRowResult (d : Database) (query : string) (escaped : option (list iface))
  : outcome (option Rows * option error) :=
  '(rows, err) ← getRows d query escaped;
  match err with
  | Some err => Returned (None, Some err)
  | None => Returned (rows, None)
  end.

(** [QueryRaw]; a nil [*sql.Rows] handed to [parseRowResults] panics at
    its first method call. *)
Definition QueryRaw (d : Database) (query : string) (escaped : option (list iface))
  : outcome (option (list GenericRecord) * option error) :=
  '(rowResult, err) ← getRowResult d query escaped;
  match err with
  | Some err => Returned (None, Some err)
  | None =>
      match rowResult with
      | None => Aborted RuntimePanic
      | Some rowResult =>
          '(ret, _) ← parseRowResults rowResult;
          Returned ret
      end
  end.

(** [Row] and [RowByStringField], in the variant that returns a generic
    record.  [len] of a nil slice is 0; [rows[0]] panics out of range. *)
Definition Row (d : Database) (query : string) (id : Z)
  : outcome (option GenericRecord * option error) :=
  '(rows, err) ← QueryRaw d query (Some [IInt64 id]);
  match err with
  | Some err => Returned (None, Some err)
  | None =>
      let rows := default [] rows in
      if Nat.ltb (length rows) 1 then Returned (None, Some (errors_New "no result"))
      else match rows !! 0%nat with
           | Some row => Returned (Some row, None)
           | None => Aborted RuntimePanic
           end
  end.

Definition RowByStringField (d : Database) (query : string) (field : string)
  : outcome (option GenericRecord * option error) :=
  '(rows, err) ← QueryRaw d query (Some [IString field]);
  match err with
  | Some err => Returned (None, Some err)
  | None =>
      let rows := default [] rows in
      if Nat.ltb (length rows) 1 then Returned (None, Some (errors_New "no result"))
      else match rows !! 0%nat with
           | Some row => Returned (Some row, None)
           | None => Aborted RuntimePanic
           end
  end.

(** ** Records *)

(** [Record]: the properties, the database and the table. *)
Record Record_ : Type := mkRecord {
  properties : gmap string iface;
  database : Database;
  table : string
}.

Definition MakeRecord (d : Database) (properties : gmap string iface) (table : string)
  : Record_ :=
  mkRecord properties d table.

(** [strings.TrimRight s cutset]: [s] without its trailing characters
    that occur in [cutset]. *)
Fixpoint in_cutset (c : ascii) (cutset : string) : bool :=
  match cutset with
  | EmptyString => false
  | String c' cutset' => Ascii.eqb c c' || in_cutset c cutset'
  end.

Fixpoint TrimRight (s cutset : string) : string :=
  match s with
  | EmptyString => EmptyString
  | String c s' =>
      match TrimRight s' cutset with
      | EmptyString => if in_cutset c cutset then EmptyString else String c EmptyString
      | t => String c t
      end
  end.

(** [Update], run with the order [visit] in which the loop over
    [r.properties] meets the entries.  A read of a missing key of the map
    yields nil.  The last statement is [return insert.LastInsertId()]. *)
Definition Update (visit : list (string * iface)) (r : Record_) (id : string)
  : outcome (Z * option error) :=
  let updateStatement :=
    "UPDATE `" +:+ Name (database r) +:+ "`.`" +:+ table r +:+ "` SET " in
  let where_ := " WHERE " in
  let id := if Nat.ltb (len id) 1 then "id" else id in
  let '(updateStatement, where_, inserts) :=
    fold_left (fun '(updateStatement, where_, inserts) '(field, value) =>
                 if String.eqb field id
                 then (updateStatement, where_ +:+ id +:+ " = ?;", inserts)
                 else (updateStatement +:+ field +:+ " = ?, ", where_, inserts ++ [value]))
              visit (updateStatement, where_, []) in
  let inserts := inserts ++ [default INil (properties r !! id)] in
  let updateStatement := TrimRight updateStatement ", " +:+ where_ in
  '(insert, err) ← Exec (database r) updateStatement (Some inserts);
  match err with
  | Some err => Returned (0, Some err)
  | None =>
      match insert with
      | Some insert => Returned (res_LastInsertId insert)
      | None => Aborted RuntimePanic
      end
  end.

(** ** [Create] and [CheckHasTable] *)

(** [strings.Join elems sep]. *)
Fixpoint Join (elems : list string) (sep : string) : string :=
  match elems with
  | [] => ""
  | [e] => e
  | e :: rest => e +:+ sep +:+ Join rest sep
  end.

(** [s[n:]] for [n <= len(s)]. *)
Fixpoint string_drop (n : nat) (s : string) : string :=
  match n, s with
  | O, _ => s
  | S n', String _ s' => string_drop n' s'
  | S _, EmptyString => EmptyString
  end.

(** [strings.Replace s old new 1]: the first occurrence of [old] in [s],
    from the left, is replaced by [new]; [s] is returned when there is
    none. *)
Fixpoint Replace_1 (s old new : string) : string :=
  match s with
  | EmptyString => if String.prefix old EmptyString then new else EmptyString
  | String c s' =>
      if String.prefix old s then new +:+ string_drop (String.length old) s
      else String c (Replace_1 s' old new)
  end.

(** [Create], run with the order [visit] in which the loop over
    [r.properties] meets the entries.  [inserts] stays a nil slice when
    there is no property, and [Exec] then passes no argument. *)
Definition Create (visit : list (string * iface)) (r : Record_)
  : outcome (Z * option error) :=
  let insertStatement :=
    "INSERT INTO `" +:+ Name (database r) +:+ "`.`" +:+ table r +:+
    "` (`@fields`) VALUES (@values)" in
  let '(inserts, fields, valuesEscapes) :=
    fold_left (fun '(inserts, fields, valuesEscapes) '(field, value) =>
                 (Some (default [] inserts ++ [value]), fields ++ [field],
                  valuesEscapes ++ ["?"]))
              visit (None, [], []) in
  let insertStatement := Replace_1 insertStatement "@fields" (Join fields "`, `") in
  let insertStatement := Replace_1 insertStatement "@values" (Join valuesEscapes ", ") in
  '(insert, err) ← Exec (database r) insertStatement inserts;
  match err with
  | Some err => Returned (0, Some err)
  | None =>
      match insert with
      | Some insert => Returned (res_LastInsertId insert)
      | None => Aborted RuntimePanic
      end
  end.

(** [v[key] == nil] and [v[key] == table] on an [interface{}]: the second
    holds for a string of the same content only. *)
Definition is_nil (x : iface) : bool :=
  match x with INil => true | _ => false end.

Definition equals_string (x : iface) (s : string) : bool :=
  match x with IString s' => String.eqb s' s | _ => false end.

(** The loop of [CheckHasTable], with its [continue] and [break]. *)
Fixpoint CheckHasTable_loop (tables : list GenericRecord) (key table : string) : bool :=
  match tables with
  | [] => false
  | v :: tables' =>
      if is_nil (default INil (v !! key)) then CheckHasTable_loop tables' key table
      else if equals_string (default INil (v !! key)) table then true
      else CheckHasTable_loop tables' key table
  end.

Definition CheckHasTable (d : Database) (table : string) : outcome (bool * option error) :=
  '(tables, err) ← QueryRaw d "SHOW TABLES" None;
  match err with
  | Some err => Returned (false, Some err)
  | None =>
      let tables := default [] tables in
      if Nat.ltb (length tables) 1 then Returned (false, None)
      else
        let key := "Tables_in_" +:+ Name d in
        Returned (CheckHasTable_loop tables key table, None)
  end.

(** [Rows], the exported name of [getRowResult]. *)
Definition Database_Rows (d : Database) (query : string) (escaped : option (list iface))
  : outcome (option Rows * option error) :=
  getRowResult d query escaped.

End Package.

(** ** [Row] and [RowByStringField] of [src/database.go] *)

(** [*sql.Row]: [QueryRow] runs the query and keeps its cursor, or its
    error, for the caller's [Scan]; no row is read. *)
Record sql_Row : Type := mkRow {
  row_rows : option Rows;
  row_err : option error
}.

Definition DB_QueryRow (conn : DB) (query : string) (args : list iface) : sql_Row :=
  let '(rows, err) := db_Query conn query args in mkRow rows err.

Module SqlRow.

Definition Row (d : Database) (query : string) (id : Z) : outcome sql_Row :=
  match connection d with
  | None => Aborted RuntimePanic
  | Some conn => Returned (DB_QueryRow conn query [IInt64 id])
  end.

Definition RowByStringField (d : Database) (query : string) (field : string)
  : outcome sql_Row :=
  match connection d with
  | None => Aborted RuntimePanic
  | Some conn => Returned (DB_QueryRow conn query [IString field])
  end.

End SqlRow.

(* ===================================================================== *)
(** * The specification's reading of the type resolver and of the
      configuration policy *)
(* ===================================================================== *)






(** Letter case: the upper-case form of an ASCII string.  Two spellings
    differ only in letter case when their upper-case forms agree. *)
Definition ToUpper_ascii (c : ascii) : ascii :=
  let n := nat_of_ascii c in
  if Nat.leb 97 n && Nat.leb n 122 then ascii_of_nat (n - 32) else c.

Fixpoint ToUpper (s : string) : string :=
  match s with
  | EmptyString => EmptyString
  | String c s' => String (ToUpper_ascii c) (ToUpper s')
  end.

(** The value a holder of each kind yields for its zero payload. *)
Definition zero_value (k : ScanKind) : iface :=
  match k with
  | KNullInt64 => IInt64 0
  | KNullFloat64 => IFloat64 float64_zero
  | KNullString => IString ""
  end.

(** Per-field supplementation as the specification words it: an explicit
    value that is not empty is kept, an empty one takes the value of the
    environment variable; in schemaless mode the database field is left
    as it is. *)
Definition per_field (explicit fromEnv : string) : string :=
  if String.eqb explicit "" then fromEnv else explicit.

(** The values a visit of a map carries for one key. *)
Definition values_for (key : string) (visit : list (string * string)) : list string :=
  omap (fun kv : string * string => if String.eqb kv.1 key then Some kv.2 else None) visit.

Definition supplemented {RT : Runtime} (schemaless : bool) (c : Configs) : Configs :=
  mkConfigs (per_field (cfg_Host c) (os_Getenv "DB_HOST"))
            (per_field (cfg_Username c) (os_Getenv "DB_USERNAME"))
            (per_field (cfg_Password c) (os_Getenv "DB_PASSWORD"))
            (per_field (cfg_Port c) (os_Getenv "DB_PORT"))
            (if schemaless then cfg_Database c
             else per_field (cfg_Database c) (os_Getenv "DB_DATABASE"))
            (per_field (cfg_Driver c) (os_Getenv "DB_CONNECTION")).

(** The key column of [Update]: the argument, or "id" when the argument
    is the empty string. *)
Definition key_column (id : string) : string :=
  if Nat.ltb (len id) 1 then "id" else id.

(** The statement and the arguments [Update] hands to [Exec]. *)
Definition Update_query (visit : list (string * iface)) (r : Record_) (id : string)
  : string * list iface :=
  let updateStatement :=
    "UPDATE `" +:+ Name (database r) +:+ "`.`" +:+ table r +:+ "` SET " in
  let where_ := " WHERE " in
  let id := if Nat.ltb (len id) 1 then "id" else id in
  let '(updateStatement, where_, inserts) :=
    fold_left (fun '(updateStatement, where_, inserts) '(field, value) =>
                 if String.eqb field id
                 then (updateStatement, where_ +:+ id +:+ " = ?;", inserts)
                 else (updateStatement +:+ field +:+ " = ?, ", where_, inserts ++ [value]))
              visit (updateStatement, where_, []) in
  (TrimRight updateStatement ", " +:+ where_, inserts ++ [default INil (properties r !! id)]).

(** The statement and the arguments [Create] hands to [Exec]. *)
Definition Create_query (visit : list (string * iface)) (r : Record_)
  : string * option (list iface) :=
  let insertStatement :=
    "INSERT INTO `" +:+ Name (database r) +:+ "`.`" +:+ table r +:+
    "` (`@fields`) VALUES (@values)" in
  let '(inserts, fields, valuesEscapes) :=
    fold_left (fun '(inserts, fields, valuesEscapes) '(field, value) =>
                 (Some (default [] inserts ++ [value]), fields ++ [field],
                  valuesEscapes ++ ["?"]))
              visit (None, [], []) in
  (Replace_1 (Replace_1 insertStatement "@fields" (Join fields "`, `"))
             "@values" (Join valuesEscapes ", "),
   inserts).

(** What [Create] and [Update] make of the answer of [Exec]: 0 and the
    error, or what [LastInsertId] reports. *)
Definition last_insert_id_of (answer : option Result * option error)
  : outcome (Z * option error) :=
  match answer with
  | (_, Some err) => Returned (0, Some err)
  | (Some insert, None) => Returned (res_LastInsertId insert)
  | (None, None) => Aborted RuntimePanic
  end.

(** The [SET] list [Update] accumulates for the fields: each field
    followed by [" = ?, "]. *)
Definition set_clause (fields : list string) : string :=
  fold_right (fun field rest => field +:+ " = ?, " +:+ rest) "" fields.

(** Whether the character [c] occurs in [s]. *)
Fixpoint has_char (c : ascii) (s : string) : bool :=
  match s with
  | EmptyString => false
  | String c' s' => Ascii.eqb c' c || has_char c s'
  end.

(** The six string fields of [Configs]. *)
Definition config_fields : list (Configs -> string) :=
  [cfg_Host; cfg_Username; cfg_Password; cfg_Port; cfg_Database; cfg_Driver].

(** The last column descriptor that carries a name. *)
Definition last_named (name : string) (colTypes : list ColumnType) : option ColumnType :=
  last (filter (fun c => ct_Name c = name) colTypes).

(** A pointer to one of the three holders, as [makeRow] allocates them. *)
Definition holder_ptr (v : iface) : Prop :=
  match v with
  | IPtr (INullString _) | IPtr (INullInt64 _) | IPtr (INullFloat64 _) => True
  | _ => False
  end.

(** What a call returned, the cursor left aside. *)
Definition returned_values {A : Type} (o : outcome (A * Rows)) : option A :=
  match o with
  | Returned (ret, _) => Some ret
  | Aborted _ => None
  end.

(** A cursor that is positioned on the row [lastcols]; [Rows.Scan] reads
    nothing else of the cursor. *)
Definition positioned_on (lastcols : list driver_Value) : Rows :=
  mkRows [] [] None (Some lastcols) None false 0.

(* ===================================================================== *)
(** * A concrete runtime and a seeded [widgets] table *)
(* ===================================================================== *)

Module Sample.

(** The binary64 numbers nearest to 1.23 and 110.9. *)
Definition weight_1_23 : float64 := S754_finite false 5539427541665710 (-52).
Definition weight_110_9 : float64 := S754_finite false 7803893729302938 (-46).

Definition sku : ColumnType := mkColumnType "sku" "VARCHAR".
Definition description : ColumnType := mkColumnType "description" "VARCHAR".
Definition weight : ColumnType := mkColumnType "weight" "FLOAT".
Definition id : ColumnType := mkColumnType "id" "INT".

(** A fresh cursor over [rows]. *)
Definition cursor (columns : list ColumnType) (rows : list (list driver_Value)) : Rows :=
  mkRows columns rows None None None false 0.

Definition by_id : string := "select sku, description from widgets where id = ?".
Definition by_description : string :=
  "select sku, description, weight from widgets where description = ?".
Definition update_weight : string :=
  "UPDATE `shop`.`widgets` SET weight = ? WHERE sku = ?;".

(** A connection that knows the two queries and the one statement above;
    the update matches one row and inserts none. *)
Definition conn : DB := {|
  db_Exec query args :=
    if String.eqb query update_weight
    then (Some (mkResult (0, None) (1, None)), None)
    else (None, Some (sql_error "Error 1064: You have an error in your SQL syntax"));
  db_Query query args :=
    if String.eqb query by_id then
      match args with
      | [IInt64 2] => (Some (cursor [sku; description] [[DBytes "WIDG2"; DBytes "Widget Two"]]), None)
      | _ => (Some (cursor [sku; description] []), None)
      end
    else if String.eqb query by_description then
      match args with
      | [IString "Widget Three"] =>
          (Some (cursor [sku; description; weight]
                        [[DBytes "WIDG3"; DBytes "Widget Three"; DFloat64 weight_1_23]]), None)
      | _ => (Some (cursor [sku; description; weight] []), None)
      end
    else (None, Some (sql_error "Error 1064: You have an error in your SQL syntax"))
|}.

(** Conversions between equal types only, the driver [mysql], and the
    environment of the test suite (no [DB_DATABASE]). *)
Definition runtime : Runtime := {|
  convertAssign_string v :=
    match v with
    | DBytes s | DString s => inr s
    | _ => inl (sql_error "converting driver.Value to a string")
    end;
  convertAssign_int64 v :=
    match v with
    | DInt64 z => inr z
    | _ => inl (sql_error "converting driver.Value to a int64")
    end;
  convertAssign_float64 v :=
    match v with
    | DFloat64 f => inr f
    | _ => inl (sql_error "converting driver.Value to a float64")
    end;
  sql_Open driverName _ :=
    if String.eqb driverName "mysql" then (Some conn, None)
    else (None, Some (sql_error "sql: unknown driver"));
  os_Getenv name :=
    if String.eqb name "DB_HOST" then "127.0.0.1"
    else if String.eqb name "DB_USERNAME" then "root"
    else if String.eqb name "DB_PASSWORD" then "secret"
    else if String.eqb name "DB_PORT" then "3306"
    else if String.eqb name "DB_CONNECTION" then "mysql"
    else ""
|}.

Definition shop : Database :=
  mkDatabase (Some conn) (mkConfigs "127.0.0.1" "root" "secret" "3306" "shop" "mysql") false.

(** A row whose [description] is NULL, and one whose [weight] is NULL. *)
Definition null_description : Rows :=
  cursor [sku; description] [[DBytes "WIDG5"; DNil]].
Definition null_weight : Rows :=
  cursor [sku; weight] [[DBytes "WIDG6"; DNil]].

(** Three rows, the second with text where the [INT] column is read. *)
Definition bad_second_row : Rows :=
  cursor [id; sku] [[DInt64 1; DBytes "WIDG1"]; [DBytes "two"; DBytes "WIDG2"];
                    [DInt64 3; DBytes "WIDG3"]].

(** A cursor that was closed before its rows were read. *)
Definition closed_early : Rows :=
  Rows_Close (cursor [sku] [[DBytes "WIDG1"]]).

(** The order in which the loops over the environment map and over the
    properties of the record below meet their entries. *)
Definition env_visit : list (string * string) :=
  [("port", "3306"); ("host", "127.0.0.1"); ("driver", "mysql");
   ("database", ""); ("username", "root"); ("password", "secret")].

Definition widg4 : Record_ :=
  MakeRecord shop (<["weight" := IFloat64 weight_110_9]> (<["sku" := IString "WIDG4"]> ∅))
             "widgets".
Definition widg4_visit : list (string * iface) :=
  [("weight", IFloat64 weight_110_9); ("sku", IString "WIDG4")].

(** Two rows that scan, the second with a NULL weight; and a cursor whose
    stream breaks after its first row. *)
Definition two_rows : Rows :=
  cursor [sku; weight] [[DBytes "WIDG3"; DFloat64 weight_1_23]; [DBytes "WIDG6"; DNil]].
Definition broken_stream : Rows :=
  mkRows [sku] [[DBytes "WIDG1"]] (Some (sql_error "unexpected EOF")) None None false 0.

(** A join that yields two columns named [id], of different types. *)
Definition joined_id : ColumnType := mkColumnType "id" "VARCHAR".
Definition two_ids : list ColumnType := [id; sku; joined_id].

(** A connection that answers every query with the cursor [rs], and the
    database [shop] on such a connection. *)
Definition conn_of (rs : Rows) : DB := {|
  db_Exec _ _ := (None, Some (sql_error "Error 1064: You have an error in your SQL syntax"));
  db_Query _ _ := (Some rs, None)
|}.
Definition shop_on (rs : Rows) : Database :=
  mkDatabase (Some (conn_of rs)) (mkConfigs "127.0.0.1" "root" "secret" "3306" "shop" "mysql")
             false.

(** The answer to [SHOW TABLES] in the schema [shop]. *)
Definition show_tables : Rows :=
  cursor [mkColumnType "Tables_in_shop" "VARCHAR"] [[DBytes "users"]; [DBytes "widgets"]].


(** A record that carries its [id], and a record without properties. *)
Definition widg7 : Record_ :=
  MakeRecord shop (<["id" := IInt64 7]> (<["weight" := IFloat64 weight_110_9]> ∅)) "widgets".
Definition widg7_visit : list (string * iface) :=
  [("id", IInt64 7); ("weight", IFloat64 weight_110_9)].
Definition no_properties : Record_ := MakeRecord shop ∅ "widgets".

(** The map literal of [envConfigs], and a visit with stray entries. *)
Definition env_names : list (string * string) :=
  [("host", "DB_HOST"); ("username", "DB_USERNAME"); ("password", "DB_PASSWORD");
   ("port", "DB_PORT"); ("database", "DB_DATABASE"); ("driver", "DB_CONNECTION")].
Definition stray_visit : list (string * string) :=
  [("host", "10.0.0.1"); ("colour", "blue"); ("host", "10.0.0.2"); ("port", "3307")].

End Sample.

(* ===================================================================== *)
(** * Properties of the type resolver *)
(* ===================================================================== *)



(** Only an upper-case spelling reaches a numeric case of the switch. *)
Lemma switch_kind_numeric_upper (t : string) :
  switch_kind t <> KNullString -> ToUpper t = t.
Proof.
  unfold switch_kind. intros H.
  repeat match type of H with
         | context [String.eqb t ?s] =>
             destruct (String.eqb_spec t s);
             [subst t; first [reflexivity | exfalso; apply H; reflexivity] | ]
         end.
  exfalso; apply H; reflexivity.
Qed.

(** C4, as the code has it.  The switch compares the reported name
    exactly, letter case included: a spelling that is not in upper case
    resolves to the nullable string, and two spellings that differ only
    in letter case resolve to the same kind exactly when they are the
    same spelling or both resolve to the nullable string. *)
Theorem switch_kind_exact_match (a b : string) :
  ToUpper a = ToUpper b ->
  (a <> ToUpper a -> switch_kind a = KNullString) /\
  (switch_kind a = switch_kind b <->
   a = b \/ (switch_kind a = KNullString /\ switch_kind b = KNullString)).
Proof.
  intros Hab. split.
  - intros Hne. destruct (decide (switch_kind a = KNullString)) as [|Hk]; [done|].
    apply switch_kind_numeric_upper in Hk. congruence.
  - split.
    + intros Hk. destruct (decide (switch_kind a = KNullString)) as [Ha|Ha].
      * right. split; congruence.
      * left. assert (Hb : switch_kind b <> KNullString) by congruence.
        apply switch_kind_numeric_upper in Ha, Hb. congruence.
    + intros [-> | [-> ->]]; reflexivity.
Qed.

Lemma switch_kind_exact_match_witness :
  ToUpper "int" = ToUpper "INT" /\
  ("int" <> ToUpper "int" -> switch_kind "int" = KNullString) /\
  (switch_kind "int" = switch_kind "INT" <->
   "int" = "INT" \/ (switch_kind "int" = KNullString /\ switch_kind "INT" = KNullString)).
Proof.
  split; [reflexivity | apply (switch_kind_exact_match "int" "INT"); reflexivity].
Defined.

(** C4, as the specification words it, fails: "int" and "INT" differ only
    in letter case and resolve to different kinds. *)
Lemma switch_kind_case_sensitive :
  ToUpper "int" = ToUpper "INT" /\ switch_kind "int" <> switch_kind "INT".
Proof. split; [reflexivity | discriminate]. Qed.

(* ===================================================================== *)
(** * Properties of the row materializer *)
(* ===================================================================== *)

Section Materializer.
Context {RT : Runtime}.

Lemma makeRow_fmap (typeMapping : gmap string string) (cols : list string) :
  makeRow typeMapping cols =
  (fun v => newCol (switch_kind (typeMapping_at typeMapping v))) <$> cols.
Proof.
  unfold makeRow.
  enough (H : forall acc,
    fold_left (fun row v => row ++ [newCol (switch_kind (typeMapping_at typeMapping v))]) cols acc
    = acc ++ ((fun v => newCol (switch_kind (typeMapping_at typeMapping v))) <$> cols))
    by apply (H []).
  induction cols as [|c cols IH]; intros acc; simpl.
  - by rewrite app_nil_r.
  - rewrite IH, <- app_assoc. reflexivity.
Qed.

Lemma makeRow_length (typeMapping : gmap string string) (cols : list string) :
  length (makeRow typeMapping cols) = length cols.
Proof. rewrite makeRow_fmap. apply length_fmap. Qed.

Lemma newCol_holder_ptr (k : ScanKind) : holder_ptr (newCol k).
Proof. destruct k; exact I. Qed.

Lemma makeRow_holder_ptr (typeMapping : gmap string string) (cols : list string) :
  Forall holder_ptr (makeRow typeMapping cols).
Proof.
  rewrite makeRow_fmap. apply Forall_fmap, Forall_forall.
  intros; apply newCol_holder_ptr.
Qed.

Lemma convertAssignRows_holder_ptr (d : iface) (sv : driver_Value) :
  holder_ptr d -> holder_ptr (convertAssignRows d sv).1.
Proof.
  destruct d as [| | | | | | |[]]; simpl; try contradiction; intros _.
  - destruct (NullString_Scan h sv); exact I.
  - destruct (NullInt64_Scan h sv); exact I.
  - destruct (NullFloat64_Scan h sv); exact I.
Qed.

(** A scanned holder never yields nil. *)
Lemma getRowValue_holder_ptr (v : iface) : holder_ptr v -> getRowValue v <> INil.
Proof. destruct v as [| | | | | | |[]]; simpl; try contradiction; discriminate. Qed.

(** Scanning NULL into a fresh holder and unwrapping it gives the zero
    value of the kind. *)
Lemma getRowValue_scan_nil (k : ScanKind) :
  convertAssignRows (newCol k) DNil =
    (newCol k, None) /\
  getRowValue (convertAssignRows (newCol k) DNil).1 = zero_value k.
Proof. destruct k; split; reflexivity. Qed.

(** ** [Rows.Scan] *)

Lemma Scan_loop_length (i : nat) (dest : list iface) (lastcols : list driver_Value) :
  length (Scan_loop i dest lastcols).1 = length dest.
Proof.
  revert i lastcols. induction dest as [|d dest IH]; intros i [|sv lastcols]; simpl; try done.
  destruct (convertAssignRows d sv) as [d' [e|]]; simpl; [done|].
  specialize (IH (S i) lastcols). destruct (Scan_loop (S i) dest lastcols); simpl in *.
  by rewrite IH.
Qed.

Lemma Scan_loop_ok (i : nat) (dest dest' : list iface) (lastcols : list driver_Value) :
  Scan_loop i dest lastcols = (dest', None) ->
  length dest = length lastcols ->
  dest' = zip_with (fun d sv => (convertAssignRows d sv).1) dest lastcols.
Proof.
  revert i dest' lastcols.
  induction dest as [|d dest IH]; intros i dest' [|sv lastcols]; simpl; intros H Hlen;
    try discriminate.
  - by inversion H.
  - destruct (convertAssignRows d sv) as [d1 [e|]] eqn:Hd; simpl in *; [discriminate|].
    destruct (Scan_loop (S i) dest lastcols) as [rest err] eqn:Hrest.
    inversion H; subst. f_equal. eapply IH; [eassumption | lia].
Qed.

Lemma Scan_loop_holder_ptr (i : nat) (dest : list iface) (lastcols : list driver_Value) :
  Forall holder_ptr dest -> Forall holder_ptr (Scan_loop i dest lastcols).1.
Proof.
  revert i lastcols. induction dest as [|d dest IH]; intros i [|sv lastcols] H; simpl; try done.
  inversion H as [|? ? Hd Hdest]; subst.
  pose proof (convertAssignRows_holder_ptr d sv Hd) as Hd'.
  destruct (convertAssignRows d sv) as [d' [e|]]; simpl in *.
  - by constructor.
  - specialize (IH (S i) lastcols Hdest).
    destruct (Scan_loop (S i) dest lastcols); simpl in *. by constructor.
Qed.

Lemma Rows_Scan_positioned (rs : Rows) (lastcols : list driver_Value) (dest : list iface) :
  rs_lastcols rs = Some lastcols ->
  Rows_Scan rs dest = Rows_Scan (positioned_on lastcols) dest.
Proof. unfold Rows_Scan. intros ->. reflexivity. Qed.

Lemma Rows_Scan_length (rs : Rows) (dest : list iface) :
  length (Rows_Scan rs dest).1 = length dest.
Proof.
  unfold Rows_Scan. destruct (rs_lastcols rs); [|done].
  destruct (negb _); [done|]. apply Scan_loop_length.
Qed.

Lemma Rows_Scan_holder_ptr (rs : Rows) (dest : list iface) :
  Forall holder_ptr dest -> Forall holder_ptr (Rows_Scan rs dest).1.
Proof.
  unfold Rows_Scan. intros H. destruct (rs_lastcols rs); [|done].
  destruct (negb _); [done|]. by apply Scan_loop_holder_ptr.
Qed.

(** A successful [Scan] converted every column of the current row. *)
Lemma Rows_Scan_ok (rs : Rows) (dest dest' : list iface) :
  Rows_Scan rs dest = (dest', None) ->
  exists lastcols, rs_lastcols rs = Some lastcols /\
    length dest = length lastcols /\
    dest' = zip_with (fun d sv => (convertAssignRows d sv).1) dest lastcols.
Proof.
  unfold Rows_Scan. destruct (rs_lastcols rs) as [lastcols|]; [|discriminate].
  destruct (Nat.eqb_spec (length dest) (length lastcols)) as [Hlen|]; simpl; [|discriminate].
  intros H. exists lastcols. repeat split; [done|]. by eapply Scan_loop_ok.
Qed.

(** ** The loop of [getResultantRow] *)

(** The loop never indexes [cols] out of range when the row is no longer
    than what is left of the columns. *)
Lemma getResultantRow_loop_returns (cols : list string) (row : list iface) (count : nat)
    (resultRow : GenericRecord) :
  (count + length row <= length cols)%nat ->
  exists rec, getResultantRow_loop cols row count resultRow = Returned rec.
Proof.
  revert count resultRow. induction row as [|v row IH]; intros count acc Hlen; simpl in *.
  - by eexists.
  - destruct (lookup_lt_is_Some_2 cols count) as [col Hcol]; [lia|].
    rewrite Hcol. apply IH. lia.
Qed.

(** A key that no later column of the row carries keeps its entry. *)
Lemma getResultantRow_loop_miss (cols : list string) (row : list iface) (count : nat)
    (resultRow rec : GenericRecord) (name : string) :
  getResultantRow_loop cols row count resultRow = Returned rec ->
  (forall j, (j < length row)%nat -> cols !! (count + j)%nat <> Some name) ->
  rec !! name = resultRow !! name.
Proof.
  revert count resultRow. induction row as [|v row IH]; intros count acc H Hmiss; simpl in *.
  - by inversion H.
  - destruct (cols !! count) as [col|] eqn:Hcol; [|discriminate].
    rewrite (IH _ _ H).
    + apply lookup_insert_ne. intros ->.
      apply (Hmiss 0%nat); [lia|]. by rewrite Nat.add_0_r.
    + intros j Hj. replace (S count + j)%nat with (count + S j)%nat by lia.
      apply Hmiss. lia.
Qed.

(** The entry of a key is the value of the last column that carries it. *)
Lemma getResultantRow_loop_hit (cols : list string) (row : list iface) (count : nat)
    (resultRow rec : GenericRecord) (name : string) (k : nat) (v : iface) :
  getResultantRow_loop cols row count resultRow = Returned rec ->
  row !! k = Some v ->
  cols !! (count + k)%nat = Some name ->
  (forall j, (k < j)%nat -> cols !! (count + j)%nat <> Some name) ->
  rec !! name = Some (getRowValue v).
Proof.
  revert count resultRow k.
  induction row as [|v0 row IH]; intros count acc k H Hk Hcol Hlast; simpl in *; [done|].
  destruct (cols !! count) as [col|] eqn:Hc; [|discriminate].
  destruct k as [|k]; simpl in *.
  - inversion Hk; subst v0. rewrite Nat.add_0_r in Hcol.
    assert (col = name) as -> by congruence.
    rewrite (getResultantRow_loop_miss _ _ _ _ _ name H).
    + apply lookup_insert_eq.
    + intros j _. replace (S count + j)%nat with (count + S j)%nat by lia.
      apply Hlast. lia.
  - eapply (IH _ _ k H Hk).
    + by replace (S count + k)%nat with (count + S k)%nat by lia.
    + intros j Hj. replace (S count + j)%nat with (count + S j)%nat by lia.
      apply Hlast. lia.
Qed.

(** An entry, once written, stays bound; and every column of the row is
    bound at the end. *)
Lemma getResultantRow_loop_mono (cols : list string) (row : list iface) (count : nat)
    (resultRow rec : GenericRecord) (name : string) :
  getResultantRow_loop cols row count resultRow = Returned rec ->
  is_Some (resultRow !! name) -> is_Some (rec !! name).
Proof.
  revert count resultRow. induction row as [|v row IH]; intros count acc H Hacc; simpl in *.
  - by inversion H; subst.
  - destruct (cols !! count) as [col|]; [|discriminate].
    apply (IH _ _ H). rewrite lookup_insert. case_decide; [by eexists | done].
Qed.

Lemma getResultantRow_loop_bound (cols : list string) (row : list iface) (count : nat)
    (resultRow rec : GenericRecord) (name : string) (k : nat) :
  getResultantRow_loop cols row count resultRow = Returned rec ->
  (k < length row)%nat ->
  cols !! (count + k)%nat = Some name ->
  is_Some (rec !! name).
Proof.
  revert count resultRow k.
  induction row as [|v row IH]; intros count acc k H Hk Hcol; simpl in *; [lia|].
  destruct (cols !! count) as [col|] eqn:Hc; [|discriminate].
  destruct k as [|k].
  - rewrite Nat.add_0_r in Hcol. assert (col = name) as -> by congruence.
    apply (getResultantRow_loop_mono _ _ _ _ _ _ H).
    rewrite lookup_insert_eq. by eexists.
  - apply (IH _ _ k H); [lia|].
    by replace (S count + k)%nat with (count + S k)%nat by lia.
Qed.

(** Values that are not nil going in, values that are not nil coming
    out. *)
Lemma getResultantRow_loop_not_nil (cols : list string) (row : list iface) (count : nat)
    (resultRow rec : GenericRecord) :
  getResultantRow_loop cols row count resultRow = Returned rec ->
  Forall holder_ptr row ->
  (forall name, resultRow !! name <> Some INil) ->
  forall name, rec !! name <> Some INil.
Proof.
  revert count resultRow. induction row as [|v row IH]; intros count acc H Hrow Hacc; simpl in *.
  - by inversion H; subst.
  - destruct (cols !! count) as [col|]; [|discriminate].
    inversion Hrow as [|? ? Hv Hrow']; subst.
    apply (IH _ _ H Hrow'). intros name. rewrite lookup_insert.
    case_decide; [|apply Hacc].
    intros [= Hnil]. by apply (getRowValue_holder_ptr v).
Qed.

(** ** [getResultantRow] *)

Lemma getResultantRow_positioned (cols : list string) (typeMapping : gmap string string)
    (rs : Rows) (lastcols : list driver_Value) :
  rs_lastcols rs = Some lastcols ->
  getResultantRow cols typeMapping rs =
  getResultantRow cols typeMapping (positioned_on lastcols).
Proof.
  intros H. unfold getResultantRow. by rewrite (Rows_Scan_positioned rs lastcols).
Qed.

(** [getResultantRow] always returns: the error of [Scan] and no record,
    or the record the loop builds from the scanned holders. *)
Lemma getResultantRow_cases (cols : list string) (typeMapping : gmap string string)
    (rs : Rows) :
  (exists err,
      (Rows_Scan rs (makeRow typeMapping cols)).2 = Some err /\
      getResultantRow cols typeMapping rs = Returned (None, Some err)) \/
  (exists rec,
      (Rows_Scan rs (makeRow typeMapping cols)).2 = None /\
      getResultantRow cols typeMapping rs = Returned (Some rec, None) /\
      getResultantRow_loop cols ((Rows_Scan rs (makeRow typeMapping cols)).1) 0 ∅
        = Returned rec).
Proof.
  unfold getResultantRow.
  pose proof (Rows_Scan_length rs (makeRow typeMapping cols)) as Hlen.
  rewrite makeRow_length in Hlen.
  destruct (Rows_Scan rs (makeRow typeMapping cols)) as [row [err|]]; simpl in *.
  - left. by exists err.
  - right. destruct (getResultantRow_loop_returns cols row 0 ∅) as [rec Hrec]; [lia|].
    exists rec. rewrite Hrec. done.
Qed.

(** The record of a materialized row binds every column name, to a value
    that is not nil. *)
Lemma getResultantRow_keys (cols : list string) (typeMapping : gmap string string)
    (rs : Rows) (rec : GenericRecord) (name : string) :
  getResultantRow cols typeMapping rs = Returned (Some rec, None) ->
  name ∈ cols ->
  exists v, rec !! name = Some v /\ v <> INil.
Proof.
  intros H Hin.
  destruct (getResultantRow_cases cols typeMapping rs) as [(e & _ & He)|(rec' & _ & Hr & Hloop)];
    [congruence|].
  assert (rec' = rec) as -> by congruence.
  apply list_elem_of_lookup in Hin as [k Hk].
  pose proof (Rows_Scan_length rs (makeRow typeMapping cols)) as Hlen.
  rewrite makeRow_length in Hlen.
  destruct (getResultantRow_loop_bound cols _ 0 ∅ rec name k Hloop) as [v Hv].
  - rewrite Hlen. by eapply lookup_lt_Some.
  - done.
  - exists v. split; [done|]. intros ->.
    eapply (getResultantRow_loop_not_nil cols _ 0 ∅ rec Hloop); [| |exact Hv].
    + apply Rows_Scan_holder_ptr, makeRow_holder_ptr.
    + intros n. by rewrite lookup_empty.
Qed.

(** A column that is NULL in the current row, and is the last column of
    its name, is recorded as the zero value of its kind. *)
Lemma getResultantRow_nil_column (cols : list string) (typeMapping : gmap string string)
    (rs : Rows) (lastcols : list driver_Value) (i : nat) (name : string)
    (rec : GenericRecord) :
  rs_lastcols rs = Some lastcols ->
  getResultantRow cols typeMapping rs = Returned (Some rec, None) ->
  cols !! i = Some name ->
  lastcols !! i = Some DNil ->
  (forall j, (i < j)%nat -> cols !! j <> Some name) ->
  rec !! name = Some (zero_value (switch_kind (typeMapping_at typeMapping name))).
Proof.
  intros Hrs H Hcol Hnil Hlast.
  destruct (getResultantRow_cases cols typeMapping rs) as [(e & _ & He)|(rec' & Hs & Hr & Hloop)];
    [congruence|].
  assert (rec' = rec) as -> by congruence.
  destruct (Rows_Scan rs (makeRow typeMapping cols)) as [row err] eqn:Hscan; simpl in *; subst err.
  apply Rows_Scan_ok in Hscan as (lastcols' & Hl & Hlen & ->).
  assert (lastcols' = lastcols) as -> by congruence.
  rewrite <- (proj2 (getRowValue_scan_nil (switch_kind (typeMapping_at typeMapping name)))).
  eapply (getResultantRow_loop_hit cols _ 0 ∅ rec name i); [exact Hloop| |done|done].
  rewrite lookup_zip_with, makeRow_fmap, list_lookup_fmap, Hcol, Hnil. reflexivity.
Qed.

(** C1, as the code has it.  When a column of the current row is NULL
    (and no later column has its name), the record maps the column name
    to the zero value of the column's kind (the empty string, 0 or 0.0),
    which is not nil: [getRowValue] returns the payload of the holder
    whatever its [Valid] flag. *)
Theorem null_column_is_zero_value (cols : list string) (typeMapping : gmap string string)
    (rs : Rows) (lastcols : list driver_Value) (i : nat) (name : string)
    (rec : GenericRecord) :
  rs_lastcols rs = Some lastcols ->
  getResultantRow cols typeMapping rs = Returned (Some rec, None) ->
  cols !! i = Some name ->
  lastcols !! i = Some DNil ->
  (forall j, (i < j)%nat -> cols !! j <> Some name) ->
  rec !! name = Some (zero_value (switch_kind (typeMapping_at typeMapping name))) /\
  zero_value (switch_kind (typeMapping_at typeMapping name)) <> INil /\
  (forall h, getRowValue (IPtr (INullString h)) = IString (ns_String h)) /\
  (forall h, getRowValue (IPtr (INullInt64 h)) = IInt64 (ni_Int64 h)) /\
  (forall h, getRowValue (IPtr (INullFloat64 h)) = IFloat64 (nf_Float64 h)).
Proof.
  intros Hrs H Hcol Hnil Hlast. split; [|split; [|done]].
  - by eapply getResultantRow_nil_column.
  - by destruct (switch_kind _).
Qed.

End Materializer.

Lemma null_column_is_zero_value_witness :
  let rec : GenericRecord := {[ "sku" := IString "WIDG5"; "description" := IString "" ]} in
  getResultantRow (RT := Sample.runtime) ["sku"; "description"]
    (mapColTypes [Sample.sku; Sample.description])
    (positioned_on [DBytes "WIDG5"; DNil]) = Returned (Some rec, None) /\
  rec !! "description" = Some (IString "").
Proof.
  split; [vm_compute; reflexivity|].
  apply (null_column_is_zero_value (RT := Sample.runtime) ["sku"; "description"]
           (mapColTypes [Sample.sku; Sample.description])
           (positioned_on [DBytes "WIDG5"; DNil]) [DBytes "WIDG5"; DNil] 1 "description").
  - reflexivity.
  - vm_compute; reflexivity.
  - reflexivity.
  - reflexivity.
  - intros [|[|j]] Hj; simpl; [lia | lia | ].
    destruct j; discriminate.
Defined.

(* ===================================================================== *)
(** * Properties of the result walker *)
(* ===================================================================== *)

Section Walker.
Context {RT : Runtime}.

(** [Columns()] and [ColumnTypes()] succeed exactly on an open cursor. *)
Lemma Rows_Columns_open (rs : Rows) :
  (Rows_Columns rs).2 = None <-> rs_closed rs = false.
Proof. unfold Rows_Columns. by destruct (rs_closed rs). Qed.

Lemma Rows_ColumnTypes_open (rs : Rows) :
  (Rows_ColumnTypes rs).2 = None <-> rs_closed rs = false.
Proof. unfold Rows_ColumnTypes. by destruct (rs_closed rs). Qed.

(** [Next] on an open cursor. *)
Lemma Rows_Next_open (rs : Rows) :
  rs_closed rs = false ->
  Rows_Next rs =
  match rs_pending rs with
  | lastcols :: pending =>
      (true, mkRows (rs_columns rs) pending (rs_fault rs) (Some lastcols) (rs_lasterr rs)
                    false (rs_released rs))
  | [] =>
      (false, mkRows (rs_columns rs) [] (rs_fault rs) None (rs_fault rs)
                     true (S (rs_released rs)))
  end.
Proof. intros Hopen. unfold Rows_Next. rewrite Hopen. by destruct (rs_pending rs). Qed.

(** The operations of the cursor keep its state well formed: the rows of
    the driver are released once the cursor is closed, and not before. *)
Lemma Rows_Close_state (rs : Rows) :
  rs_released rs = (if rs_closed rs then 1 else 0)%nat ->
  rs_closed (Rows_Close rs) = true /\ rs_released (Rows_Close rs) = 1%nat.
Proof.
  unfold Rows_Close. destruct (rs_closed rs) eqn:Hc; simpl; intros ->; by rewrite ?Hc.
Qed.

Lemma Rows_Next_state (rs : Rows) :
  rs_released rs = (if rs_closed rs then 1 else 0)%nat ->
  rs_released (Rows_Next rs).2 = (if rs_closed (Rows_Next rs).2 then 1 else 0)%nat.
Proof.
  unfold Rows_Next. destruct (rs_closed rs) eqn:Hc; simpl; intros Hr.
  - by rewrite Hc.
  - destruct (rs_pending rs); simpl; by rewrite Hr.
Qed.

(** One turn of the loop of [rowResultWalk]. *)
Lemma rowResultWalk_loop_step (cols : list string) (typeMapping : gmap string string)
    (rowResult : Rows) (result : list GenericRecord) :
  rowResultWalk_loop cols typeMapping rowResult result =
  match Rows_Next rowResult with
  | (true, rowResult') =>
      match getResultantRow cols typeMapping rowResult' with
      | Aborted why => Aborted why
      | Returned (_, Some err) => Returned ((None, Some err), rowResult')
      | Returned (resultRow, None) =>
          rowResultWalk_loop cols typeMapping rowResult' (result ++ [default ∅ resultRow])
      end
  | (false, rowResult') =>
      match Rows_Err rowResult' with
      | Some err => Returned ((None, Some err), rowResult')
      | None => Returned ((Some result, None), rowResult')
      end
  end.
Proof.
  funelim (rowResultWalk_loop cols typeMapping rowResult result);
    rewrite Hnext; simpl; rewrite Heq; reflexivity.
Qed.

(** On an open cursor the loop returns, and the deferred [Close] then
    leaves the cursor closed, its rows released once more than before:
    by [Next] at the end of the stream, or by [Close] after a row that
    failed. *)
Lemma rowResultWalk_loop_returns (cols : list string) (typeMapping : gmap string string)
    (rowResult : Rows) (result : list GenericRecord) :
  rs_closed rowResult = false ->
  exists ret rowResult',
    rowResultWalk_loop cols typeMapping rowResult result = Returned (ret, rowResult') /\
    rs_closed (Rows_Close rowResult') = true /\
    rs_released (Rows_Close rowResult') = S (rs_released rowResult).
Proof.
  remember (rs_pending rowResult) as pending eqn:Hp.
  revert rowResult result Hp.
  induction pending as [|lastcols pending IH]; intros rs result Hp Hopen;
    rewrite rowResultWalk_loop_step, (Rows_Next_open rs Hopen), <- Hp.
  - unfold Rows_Err; simpl. destruct (rs_fault rs); eauto.
  - match goal with |- context [getResultantRow cols typeMapping ?r] => set (rs1 := r) end.
    destruct (getResultantRow_cases cols typeMapping rs1) as [(e & _ & ->)|(rec & _ & -> & _)].
    + eauto.
    + destruct (IH rs1 (result ++ [default ∅ (Some rec)]) eq_refl eq_refl)
        as (ret & rs' & -> & Hc & Hr).
      eauto.
Qed.

(** When the loop ends without an error, it has appended one record per
    pending row, in order, each the record of that row. *)
Lemma rowResultWalk_loop_ok (cols : list string) (typeMapping : gmap string string)
    (rowResult rowResult' : Rows) (result out : list GenericRecord) :
  rs_closed rowResult = false ->
  rowResultWalk_loop cols typeMapping rowResult result
    = Returned ((Some out, None), rowResult') ->
  exists recs, out = result ++ recs /\
    Forall2 (fun lastcols rec =>
               getResultantRow cols typeMapping (positioned_on lastcols)
                 = Returned (Some rec, None))
            (rs_pending rowResult) recs.
Proof.
  remember (rs_pending rowResult) as pending eqn:Hp.
  revert rowResult result Hp.
  induction pending as [|lastcols pending IH]; intros rs result Hp Hopen;
    rewrite rowResultWalk_loop_step, (Rows_Next_open rs Hopen), <- Hp.
  - unfold Rows_Err; simpl. destruct (rs_fault rs); intros [= <- <-].
    exists []. by rewrite app_nil_r.
  - match goal with |- context [getResultantRow cols typeMapping ?r] => set (rs1 := r) end.
    rewrite (getResultantRow_positioned cols typeMapping rs1 lastcols eq_refl).
    destruct (getResultantRow_cases cols typeMapping (positioned_on lastcols))
      as [(e & _ & He)|(rec & _ & Hr & _)].
    + rewrite He. discriminate.
    + rewrite Hr. intros H.
      destruct (IH rs1 _ eq_refl eq_refl H) as (recs & -> & HF).
      exists (rec :: recs). split; [by rewrite <- app_assoc | by constructor].
Qed.

(** When [Scan] fails on a pending row after succeeding on all rows
    before it, the loop returns that error and no result. *)
Lemma rowResultWalk_loop_row_error (cols : list string) (typeMapping : gmap string string)
    (rowResult : Rows) (result : list GenericRecord)
    (before after : list (list driver_Value)) (bad : list driver_Value) (err : error) :
  rs_closed rowResult = false ->
  rs_pending rowResult = before ++ bad :: after ->
  Forall (fun lastcols =>
            (Rows_Scan (positioned_on lastcols) (makeRow typeMapping cols)).2 = None) before ->
  (Rows_Scan (positioned_on bad) (makeRow typeMapping cols)).2 = Some err ->
  exists rowResult',
    rowResultWalk_loop cols typeMapping rowResult result
      = Returned ((None, Some err), rowResult') /\
    rs_closed rowResult' = false.
Proof.
  revert rowResult result.
  induction before as [|lastcols before IH]; intros rs result Hopen Hp Hbefore Hbad;
    rewrite rowResultWalk_loop_step, (Rows_Next_open rs Hopen), Hp; simpl.
  - match goal with |- context [getResultantRow cols typeMapping ?r] => set (rs1 := r) end.
    rewrite (getResultantRow_positioned cols typeMapping rs1 bad eq_refl).
    destruct (getResultantRow_cases cols typeMapping (positioned_on bad))
      as [(e & Hs & ->)|(rec & Hs & _)]; [|congruence].
    assert (e = err) as -> by congruence. eauto.
  - inversion Hbefore as [|? ? Hok Hbefore']; subst.
    match goal with |- context [getResultantRow cols typeMapping ?r] => set (rs1 := r) end.
    rewrite (getResultantRow_positioned cols typeMapping rs1 lastcols eq_refl).
    destruct (getResultantRow_cases cols typeMapping (positioned_on lastcols))
      as [(e & Hs & _)|(rec & _ & -> & _)]; [congruence|].
    destruct (IH rs1 (result ++ [default ∅ (Some rec)]) eq_refl eq_refl Hbefore' Hbad)
      as (rs' & -> & Hc).
    eauto.
Qed.

(** [rowResultWalk] on an open cursor returns with the cursor closed and
    its rows released once, on every path through its body. *)
Lemma rowResultWalk_closes_once (rowResult : Rows) (cols : list string)
    (typeMapping : gmap string string) :
  rs_closed rowResult = false ->
  exists ret rowResult',
    rowResultWalk rowResult cols typeMapping = Returned (ret, rowResult') /\
    rs_closed rowResult' = true /\
    rs_released rowResult' = S (rs_released rowResult).
Proof.
  intros Hopen. unfold rowResultWalk.
  destruct (rowResultWalk_loop_returns cols typeMapping rowResult [] Hopen)
    as (ret & rs' & -> & Hc & Hr).
  by exists ret, (Rows_Close rs').
Qed.

(** On an open cursor [parseRowResults] reads the metadata and walks the
    rows. *)
Lemma parseRowResults_open (rowResult : Rows) :
  rs_closed rowResult = false ->
  parseRowResults rowResult =
    rowResultWalk rowResult (ct_Name <$> rs_columns rowResult)
                  (mapColTypes (rs_columns rowResult)).
Proof.
  intros Hopen.
  unfold parseRowResults, Rows_Columns, getTypeMapping, Rows_ColumnTypes.
  by rewrite Hopen.
Qed.

(** The two early returns of [parseRowResults] are taken on a closed
    cursor, which they hand back as it was; an open cursor goes through
    [rowResultWalk]. *)
Lemma parseRowResults_paths (rowResult : Rows) :
  if rs_closed rowResult
  then parseRowResults rowResult
       = Returned ((None, Some (lasterrOrErr rowResult errRowsClosed)), rowResult)
  else exists ret rowResult',
         parseRowResults rowResult = Returned (ret, rowResult') /\
         rs_closed rowResult' = true /\
         rs_released rowResult' = S (rs_released rowResult).
Proof.
  destruct (rs_closed rowResult) eqn:Hc.
  - unfold parseRowResults, Rows_Columns. by rewrite Hc.
  - rewrite (parseRowResults_open rowResult Hc). by apply rowResultWalk_closes_once.
Qed.

(** C5.  When populating a row fails in the middle of the walk (the
    [Scan] of every earlier row having succeeded), the whole operation
    returns that error and a nil result: the rows accumulated so far are
    not returned. *)
Theorem row_error_discards_result (rowResult : Rows)
    (before after : list (list driver_Value)) (bad : list driver_Value) (err : error) :
  (Rows_Columns rowResult).2 = None ->
  (Rows_ColumnTypes rowResult).2 = None ->
  rs_pending rowResult = before ++ bad :: after ->
  Forall (fun lastcols =>
            (Rows_Scan (positioned_on lastcols)
               (makeRow (mapColTypes (rs_columns rowResult))
                        (ct_Name <$> rs_columns rowResult))).2 = None) before ->
  (Rows_Scan (positioned_on bad)
     (makeRow (mapColTypes (rs_columns rowResult))
              (ct_Name <$> rs_columns rowResult))).2 = Some err ->
  returned_values (parseRowResults rowResult) = Some (None, Some err).
Proof.
  intros Hc Ht Hp Hbefore Hbad.
  apply Rows_Columns_open in Hc.
  rewrite (parseRowResults_open rowResult Hc). unfold rowResultWalk.
  destruct (rowResultWalk_loop_row_error _ _ rowResult [] before after bad err
              Hc Hp Hbefore Hbad) as (rs' & -> & _).
  reflexivity.
Qed.

(** C6, as the code has it.  Every record produced from a cursor is the
    record of one pending row, in order; it binds the name of every
    column descriptor, and to a value that is not nil: a column that is
    NULL in the row (and is the last column of its name) is bound to the
    zero value of its kind. *)
Theorem columns_are_keys (rowResult rowResult' : Rows) (records : list GenericRecord) :
  parseRowResults rowResult = Returned ((Some records, None), rowResult') ->
  Forall2 (fun (lastcols : list driver_Value) (rec : GenericRecord) =>
             (forall c, c ∈ rs_columns rowResult ->
                exists v, rec !! ct_Name c = Some v /\ v <> INil) /\
             (forall i c,
                rs_columns rowResult !! i = Some c ->
                lastcols !! i = Some DNil ->
                (forall j c', (i < j)%nat -> rs_columns rowResult !! j = Some c' ->
                              ct_Name c' <> ct_Name c) ->
                rec !! ct_Name c =
                  Some (zero_value (switch_kind
                          (typeMapping_at (mapColTypes (rs_columns rowResult)) (ct_Name c))))))
          (rs_pending rowResult) records.
Proof.
  intros H.
  pose proof (parseRowResults_paths rowResult) as Hpaths.
  destruct (rs_closed rowResult) eqn:Hopen; [congruence|]. clear Hpaths.
  rewrite (parseRowResults_open rowResult Hopen) in H. unfold rowResultWalk in H.
  destruct (rowResultWalk_loop_returns (ct_Name <$> rs_columns rowResult)
              (mapColTypes (rs_columns rowResult)) rowResult [] Hopen)
    as (ret & rs1 & Hloop & _).
  rewrite Hloop in H. simpl in H. inversion H; subst ret rowResult'. clear H.
  apply rowResultWalk_loop_ok in Hloop as (recs & -> & HF); [|done]. simpl.
  eapply Forall2_impl; [exact HF|]. intros lastcols rec Hrec. split.
  - intros c Hc. eapply getResultantRow_keys; [exact Hrec|].
    by apply list_elem_of_fmap_2.
  - intros i c Hi Hnil Hlast.
    eapply (getResultantRow_nil_column _ _ (positioned_on lastcols) lastcols i);
      [reflexivity | exact Hrec | by rewrite list_lookup_fmap, Hi | exact Hnil |].
    intros j Hj. rewrite list_lookup_fmap.
    destruct (rs_columns rowResult !! j) as [c'|] eqn:Hc'; simpl; [|done].
    intros [= Heq]. by apply (Hlast j c').
Qed.

(** C3.  Take a cursor in a state [database/sql] leaves cursors in: open
    with the rows of the driver not released yet, as a query hands it
    over, or closed with the rows released once.  [parseRowResults]
    returns, and when it does the cursor is closed and its rows have
    been released exactly once.  This holds on every exit path: the
    walk of an open cursor ends on exhaustion or on a fault, where
    [Next] has closed the cursor and the deferred [Close] finds nothing
    to release, or on a row that fails, where the deferred [Close]
    releases the rows.  The two early returns are taken only when
    [Columns()] or [ColumnTypes()] fails, which is on a cursor that was
    closed before the call; it is handed back as it was, released once
    and not a second time. *)
Theorem cursor_is_closed_exactly_once (rowResult : Rows) :
  rs_released rowResult = (if rs_closed rowResult then 1 else 0)%nat ->
  exists ret rowResult',
    parseRowResults rowResult = Returned (ret, rowResult') /\
    rs_closed rowResult' = true /\
    rs_released rowResult' = 1%nat /\
    ((Rows_Columns rowResult).2 <> None \/ (Rows_ColumnTypes rowResult).2 <> None ->
     rs_closed rowResult = true /\
     ret = (None, Some (lasterrOrErr rowResult errRowsClosed)) /\
     rowResult' = rowResult).
Proof.
  intros Hstate.
  pose proof (parseRowResults_paths rowResult) as Hpaths.
  destruct (rs_closed rowResult) eqn:Hc.
  - exists (None, Some (lasterrOrErr rowResult errRowsClosed)), rowResult.
    by repeat split.
  - destruct Hpaths as (ret & rs' & Hret & Hclosed & Hreleased).
    exists ret, rs'. split; [done|]. split; [done|]. split; [congruence|].
    intros [Hfail|Hfail]; exfalso; apply Hfail.
    + by apply Rows_Columns_open.
    + by apply Rows_ColumnTypes_open.
Qed.

End Walker.

Lemma cursor_is_closed_exactly_once_witness :
  (rs_closed Sample.bad_second_row = false /\
   exists ret rowResult',
     parseRowResults (RT := Sample.runtime) Sample.bad_second_row = Returned (ret, rowResult') /\
     rs_closed rowResult' = true /\
     rs_released rowResult' = 1%nat /\
     ((Rows_Columns Sample.bad_second_row).2 <> None \/
      (Rows_ColumnTypes Sample.bad_second_row).2 <> None ->
      rs_closed Sample.bad_second_row = true /\
      ret = (None, Some (lasterrOrErr Sample.bad_second_row errRowsClosed)) /\
      rowResult' = Sample.bad_second_row)) /\
  (rs_closed Sample.closed_early = true /\
   exists ret rowResult',
     parseRowResults (RT := Sample.runtime) Sample.closed_early = Returned (ret, rowResult') /\
     rs_closed rowResult' = true /\
     rs_released rowResult' = 1%nat /\
     ((Rows_Columns Sample.closed_early).2 <> None \/
      (Rows_ColumnTypes Sample.closed_early).2 <> None ->
      rs_closed Sample.closed_early = true /\
      ret = (None, Some (lasterrOrErr Sample.closed_early errRowsClosed)) /\
      rowResult' = Sample.closed_early)).
Proof.
  split; (split; [reflexivity|]).
  - apply (cursor_is_closed_exactly_once (RT := Sample.runtime) Sample.bad_second_row).
    reflexivity.
  - apply (cursor_is_closed_exactly_once (RT := Sample.runtime) Sample.closed_early).
    reflexivity.
Defined.

Lemma row_error_discards_result_witness :
  Sample.bad_second_row.(rs_pending) =
    [[DInt64 1; DBytes "WIDG1"]] ++ [DBytes "two"; DBytes "WIDG2"] :: [[DInt64 3; DBytes "WIDG3"]] /\
  returned_values (parseRowResults (RT := Sample.runtime) Sample.bad_second_row) =
    Some (None, Some (sql_ScanColumn 0 (sql_error "converting driver.Value to a int64"))).
Proof.
  split; [reflexivity|].
  apply (row_error_discards_result (RT := Sample.runtime) Sample.bad_second_row
           [[DInt64 1; DBytes "WIDG1"]] [[DInt64 3; DBytes "WIDG3"]]
           [DBytes "two"; DBytes "WIDG2"]).
  - reflexivity.
  - reflexivity.
  - reflexivity.
  - repeat constructor.
  - vm_compute; reflexivity.
Defined.

Lemma columns_are_keys_witness :
  let rec : GenericRecord := {[ "sku" := IString "WIDG6"; "weight" := IFloat64 float64_zero ]} in
  returned_values (parseRowResults (RT := Sample.runtime) Sample.null_weight)
    = Some (Some [rec], None) /\
  Forall2 (fun (lastcols : list driver_Value) (rec : GenericRecord) =>
             (forall c, c ∈ rs_columns Sample.null_weight ->
                exists v, rec !! ct_Name c = Some v /\ v <> INil) /\
             (forall i c,
                rs_columns Sample.null_weight !! i = Some c ->
                lastcols !! i = Some DNil ->
                (forall j c', (i < j)%nat -> rs_columns Sample.null_weight !! j = Some c' ->
                              ct_Name c' <> ct_Name c) ->
                rec !! ct_Name c =
                  Some (zero_value (switch_kind
                          (typeMapping_at (mapColTypes (rs_columns Sample.null_weight))
                                          (ct_Name c))))))
          (rs_pending Sample.null_weight) [rec].
Proof.
  split; [vm_compute; reflexivity|].
  apply (columns_are_keys (RT := Sample.runtime) Sample.null_weight
           (Rows_Close (Rows_Next (Rows_Next Sample.null_weight).2).2)).
  vm_compute; reflexivity.
Defined.

(** C6, as the specification words it, fails: the record of a row whose
    [weight] is NULL binds "weight", but to 0.0 and not to nil. *)
Lemma null_weight_is_bound_to_zero :
  let rec : GenericRecord := {[ "sku" := IString "WIDG6"; "weight" := IFloat64 float64_zero ]} in
  returned_values (parseRowResults (RT := Sample.runtime) Sample.null_weight)
    = Some (Some [rec], None) /\
  Sample.null_weight.(rs_pending) = [[DBytes "WIDG6"; DNil]] /\
  rec !! "weight" = Some (IFloat64 float64_zero) /\
  rec !! "weight" <> Some INil /\
  rec !! "weight" <> None.
Proof. vm_compute. repeat split; discriminate. Qed.

(** C1, as the specification words it, fails: the record of a row whose
    [description] is NULL maps "description" to the empty string, not to
    nil and not to an absent key. *)
Lemma null_description_is_empty_string :
  let rec : GenericRecord := {[ "sku" := IString "WIDG5"; "description" := IString "" ]} in
  returned_values (parseRowResults (RT := Sample.runtime) Sample.null_description)
    = Some (Some [rec], None) /\
  Sample.null_description.(rs_pending) = [[DBytes "WIDG5"; DNil]] /\
  rec !! "description" = Some (IString "") /\
  rec !! "description" <> Some INil /\
  rec !! "description" <> None.
Proof. vm_compute. repeat split; discriminate. Qed.

(* ===================================================================== *)
(** * Properties of the connection facade *)
(* ===================================================================== *)

Section Facade.
Context {RT : Runtime}.

Lemma len_lt_1 (s : string) : Nat.ltb (len s) 1 = String.eqb s "".
Proof. by destruct s. Qed.

Lemma len_gt_0 (s : string) : Nat.ltb 0 (len s) = negb (String.eqb s "").
Proof. by destruct s. Qed.

(** The entries of the environment map, in any order of visit. *)
Lemma envConfigs_entries :
  map_to_list envConfigs ≡ₚ
    [("driver", os_Getenv "DB_CONNECTION"); ("database", os_Getenv "DB_DATABASE");
     ("port", os_Getenv "DB_PORT"); ("password", os_Getenv "DB_PASSWORD");
     ("username", os_Getenv "DB_USERNAME"); ("host", os_Getenv "DB_HOST")].
Proof.
  unfold envConfigs, getEnvVars; simpl.
  repeat (rewrite map_to_list_insert; [apply Permutation_skip | by vm_compute]).
  by rewrite map_to_list_empty.
Qed.

(** The values a visit carries for one key. *)
Lemma key_values_of_visit (visit : list (string * string)) (key : string) :
  range_of envConfigs visit ->
  key ∈ ["host"; "username"; "password"; "port"; "database"; "driver"] ->
  omap (fun kv : string * string => if String.eqb kv.1 key then Some kv.2 else None) visit
  = [os_Getenv (if String.eqb key "host" then "DB_HOST"
                else if String.eqb key "username" then "DB_USERNAME"
                else if String.eqb key "password" then "DB_PASSWORD"
                else if String.eqb key "port" then "DB_PORT"
                else if String.eqb key "database" then "DB_DATABASE"
                else "DB_CONNECTION")].
Proof.
  unfold range_of. intros Hvisit Hkey.
  rewrite envConfigs_entries in Hvisit.
  apply Permutation_singleton_r.
  rewrite Hvisit.
  repeat (apply elem_of_cons in Hkey as [-> | Hkey]; [reflexivity|]).
  by apply elem_of_nil in Hkey.
Qed.

(** ** [setDBConfig], [supplementConfigs], [setConfigs] *)

(** One call of [setDBConfig] fills the field its key names, when that
    field is empty, and touches nothing else. *)
Lemma setDBConfig_spec (d : Database) (key value : string) :
  setDBConfig d key value =
  mkDatabase (connection d)
    (mkConfigs
       (if String.eqb key "host" then per_field (cfg_Host (configs d)) value
        else cfg_Host (configs d))
       (if String.eqb key "username" then per_field (cfg_Username (configs d)) value
        else cfg_Username (configs d))
       (if String.eqb key "password" then per_field (cfg_Password (configs d)) value
        else cfg_Password (configs d))
       (if String.eqb key "port" then per_field (cfg_Port (configs d)) value
        else cfg_Port (configs d))
       (if String.eqb key "database" then per_field (cfg_Database (configs d)) value
        else cfg_Database (configs d))
       (if String.eqb key "driver" then per_field (cfg_Driver (configs d)) value
        else cfg_Driver (configs d)))
    (Schemaless d).
Proof.
  destruct d as [conn [h u pw po db dr] s]. unfold setDBConfig, with_configs, per_field; simpl.
  rewrite !len_lt_1.
  repeat match goal with
         | |- context [String.eqb key ?k] =>
             destruct (String.eqb_spec key k); [subst key; simpl|]
         end;
    repeat match goal with
           | |- context [String.eqb ?x ""] => destruct (String.eqb x "")
           end; reflexivity.
Qed.

(** [supplementConfigs] field by field: each field folds [per_field] over
    the values the visit carries for its key; the database field stays
    put in schemaless mode. *)
Lemma supplementConfigs_spec (visit : list (string * string)) (d : Database)
    (schemaless : bool) :
  supplementConfigs visit d schemaless =
  mkDatabase (connection d)
    (mkConfigs
       (fold_left per_field (values_for "host" visit) (cfg_Host (configs d)))
       (fold_left per_field (values_for "username" visit) (cfg_Username (configs d)))
       (fold_left per_field (values_for "password" visit) (cfg_Password (configs d)))
       (fold_left per_field (values_for "port" visit) (cfg_Port (configs d)))
       (if schemaless then cfg_Database (configs d)
        else fold_left per_field (values_for "database" visit) (cfg_Database (configs d)))
       (fold_left per_field (values_for "driver" visit) (cfg_Driver (configs d))))
    (Schemaless d).
Proof.
  unfold supplementConfigs. revert d.
  induction visit as [|[key value] visit IH]; intros d; simpl.
  - destruct d as [conn [h u pw po db dr] s]; simpl. by destruct schemaless.
  - rewrite IH. clear IH. unfold values_for; simpl.
    destruct (String.eqb_spec key "database") as [->|Hk]; simpl.
    + destruct schemaless; simpl; [reflexivity|].
      rewrite setDBConfig_spec. reflexivity.
    + rewrite setDBConfig_spec; simpl.
      destruct (String.eqb_spec key "database"); [done|].
      repeat match goal with
             | |- context [String.eqb key ?k] => destruct (String.eqb key k)
             end; by destruct schemaless.
Qed.

Lemma per_field_explicit (explicit fromEnv : string) :
  explicit <> "" -> per_field explicit fromEnv = explicit.
Proof. unfold per_field. by destruct (String.eqb_spec explicit ""). Qed.

Lemma per_field_empty (fromEnv : string) : per_field "" fromEnv = fromEnv.
Proof. reflexivity. Qed.

(** [setConfigs] supplements the configs per field, whatever the order
    of the visit. *)
Lemma setConfigs_spec (visit : list (string * string)) (d : Database) (schemaless : bool) :
  range_of envConfigs visit ->
  setConfigs visit d schemaless =
  mkDatabase (connection d) (supplemented schemaless (configs d)) (Schemaless d).
Proof.
  intros Hvisit. unfold setConfigs.
  destruct (hasAllConfigs d schemaless) eqn:Hall.
  - unfold hasAllConfigs in Hall. rewrite !len_gt_0 in Hall.
    destruct d as [conn [h u pw po db dr] s]; simpl in *.
    unfold supplemented, per_field; simpl.
    destruct (String.eqb h ""), (String.eqb u ""), (String.eqb pw ""), (String.eqb po ""),
      (String.eqb dr ""); simpl in *; rewrite ?andb_false_r in Hall; try discriminate.
    destruct schemaless; [done|].
    destruct (String.eqb db ""); simpl in *; [discriminate|done].
  - rewrite supplementConfigs_spec. unfold values_for.
    rewrite !(key_values_of_visit visit _ Hvisit) by set_solver.
    reflexivity.
Qed.

(** ** [Make], [MakeSchemaless], [SetSchema] *)

(** C7.  [Make] and [MakeSchemaless] supplement the configs per field,
    whatever the order in which the environment map is visited: a field
    that is not empty keeps its explicit value, an empty field takes the
    value of its environment variable, and in schemaless mode the
    database field is not filled from the environment.  The call returns
    unless [sql.Open] reports an error, which ends the process. *)
Theorem Make_supplements_per_field (visit : list (string * string)) (explicit : Configs) :
  range_of envConfigs visit ->
  (forall x fromEnv, x <> "" -> per_field x fromEnv = x) /\
  (forall fromEnv, per_field "" fromEnv = fromEnv) /\
  match Make visit explicit with
  | Returned (db, err) =>
      err = None /\ Schemaless db = false /\
      configs db = supplemented false explicit
  | Aborted why =>
      exists e, why = LogFatal e /\
        (sql_Open (cfg_Driver (supplemented false explicit))
           (connectionString (mkDatabase None (supplemented false explicit) false))).2 = Some e
  end /\
  match MakeSchemaless visit explicit with
  | Returned (db, err) =>
      err = None /\ Schemaless db = true /\
      configs db = supplemented true explicit /\
      cfg_Database (configs db) = cfg_Database explicit
  | Aborted why =>
      exists e, why = LogFatal e /\
        (sql_Open (cfg_Driver (supplemented true explicit))
           (connectionString (mkDatabase None (supplemented true explicit) true))).2 = Some e
  end.
Proof.
  intros Hvisit.
  split; [exact per_field_explicit|]. split; [exact per_field_empty|].
  unfold Make, MakeSchemaless. rewrite !setConfigs_spec by done. simpl.
  unfold connect; simpl. split.
  - destruct (sql_Open _ _) as [conn [e|]]; simpl; eauto.
  - destruct (sql_Open _ _) as [conn [e|]]; simpl; eauto.
Qed.

(** C10.  [SetSchema] sets the database field of the configs to the
    schema name and the [Schemaless] flag to false, and leaves the host,
    username, password, port and driver fields as they were; the
    connection is the one [sql.Open] then returns.  The call returns
    unless [sql.Open] reports an error, which ends the process. *)
Theorem SetSchema_frame (d : Database) (schemaName : string) :
  let bound :=
    mkDatabase (connection d)
      (mkConfigs (cfg_Host (configs d)) (cfg_Username (configs d)) (cfg_Password (configs d))
                 (cfg_Port (configs d)) schemaName (cfg_Driver (configs d)))
      false in
  match SetSchema d schemaName with
  | Returned d' =>
      cfg_Database (configs d') = schemaName /\
      Schemaless d' = false /\
      cfg_Host (configs d') = cfg_Host (configs d) /\
      cfg_Username (configs d') = cfg_Username (configs d) /\
      cfg_Password (configs d') = cfg_Password (configs d) /\
      cfg_Port (configs d') = cfg_Port (configs d) /\
      cfg_Driver (configs d') = cfg_Driver (configs d) /\
      connection d' = (sql_Open (cfg_Driver (configs d)) (connectionString bound)).1
  | Aborted why =>
      exists e, why = LogFatal e /\
        (sql_Open (cfg_Driver (configs d)) (connectionString bound)).2 = Some e
  end.
Proof.
  unfold SetSchema, connect, with_configs; simpl.
  destruct (sql_Open _ _) as [conn [e|]]; simpl.
  - by exists e.
  - repeat split.
Qed.

(** ** [Row] and [RowByStringField] *)


End Facade.

Lemma Make_supplements_per_field_witness :
  let explicit := mkConfigs "" "" "" "" "shop" "" in
  range_of (envConfigs (RT := Sample.runtime)) Sample.env_visit /\
  Make (RT := Sample.runtime) Sample.env_visit explicit = Returned (Sample.shop, None) /\
  match Make (RT := Sample.runtime) Sample.env_visit explicit with
  | Returned (db, err) =>
      err = None /\ Schemaless db = false /\
      configs db = supplemented (RT := Sample.runtime) false explicit
  | Aborted why =>
      exists e, why = LogFatal e /\
        (sql_Open (Runtime := Sample.runtime)
           (cfg_Driver (supplemented (RT := Sample.runtime) false explicit))
           (connectionString
              (mkDatabase None (supplemented (RT := Sample.runtime) false explicit) false))).2
        = Some e
  end.
Proof.
  assert (Hvisit : range_of (envConfigs (RT := Sample.runtime)) Sample.env_visit)
    by (unfold range_of; apply (bool_decide_unpack _); vm_compute; exact I).
  split; [exact Hvisit|]. split; [vm_compute; reflexivity|].
  apply (Make_supplements_per_field (RT := Sample.runtime) Sample.env_visit
           (mkConfigs "" "" "" "" "shop" "") Hvisit).
Defined.


(* ===================================================================== *)
(** * Properties of the record helpers *)
(* ===================================================================== *)

(** Whatever the record, the integer a successful [Update] returns is the
    one [LastInsertId] reports for the result of the statement. *)
Lemma Update_returns_LastInsertId (visit : list (string * iface)) (r : Record_)
    (id : string) (n : Z) :
  Update visit r id = Returned (n, None) ->
  exists statement args res,
    Exec (database r) statement (Some args) = Returned (Some res, None) /\
    res_LastInsertId res = (n, None).
Proof.
  unfold Update.
  destruct (fold_left _ visit _) as [[updateStatement where_] inserts].
  match goal with
  | |- context [Exec ?d ?s (Some ?a)] =>
      destruct (Exec d s (Some a)) as [[insert [err|]]|why] eqn:HExec; simpl
  end; try discriminate.
  destruct insert as [res|]; simpl; [|discriminate].
  intros [= H]. eauto.
Qed.

(** C2 at the failing input.  The test suite's update of the weight of
    "WIDG4", keyed on "sku": the statement matches one row and inserts
    none, and [Update] returns 0, the last insert id, where the affected
    row count is 1. *)
Theorem Update_returns_last_insert_id_not_rows_affected :
  range_of (properties Sample.widg4) Sample.widg4_visit /\
  Exec Sample.shop Sample.update_weight
       (Some [IFloat64 Sample.weight_110_9; IString "WIDG4"])
    = Returned (Some (mkResult (0, None) (1, None)), None) /\
  Update Sample.widg4_visit Sample.widg4 "sku" = Returned (0, None) /\
  Update Sample.widg4_visit Sample.widg4 "sku" <> Returned (1, None).
Proof.
  split; [unfold range_of; apply (bool_decide_unpack _); vm_compute; exact I|].
  split; [reflexivity|]. split; [vm_compute; reflexivity|].
  vm_compute. discriminate.
Qed.

(* ===================================================================== *)
(** * More on the row materializer and the result walker *)
(* ===================================================================== *)

Section WalkerMore.
Context {RT : Runtime}.

Lemma Scan_loop_conversions (i : nat) (dest dest' : list iface)
    (lastcols : list driver_Value) :
  Scan_loop i dest lastcols = (dest', None) ->
  forall k d sv, dest !! k = Some d -> lastcols !! k = Some sv ->
    (convertAssignRows d sv).2 = None.
Proof.
  revert i dest' lastcols.
  induction dest as [|d0 dest IH]; intros i dest' [|sv0 lastcols]; simpl; intros H k d sv Hd Hsv;
    try done.
  destruct (convertAssignRows d0 sv0) as [d1 [e|]] eqn:Hc; simpl in *; [discriminate|].
  destruct (Scan_loop (S i) dest lastcols) as [rest err] eqn:Hrest.
  inversion H; subst.
  destruct k as [|k]; simpl in *.
  - inversion Hd; inversion Hsv; subst. by rewrite Hc.
  - eapply IH; eauto.
Qed.

(** When every pending row scans, the loop appends one record per row
    and ends on the fault of the stream, if there is one. *)
Lemma rowResultWalk_loop_all_rows (cols : list string) (typeMapping : gmap string string)
    (rowResult : Rows) (result : list GenericRecord) :
  rs_closed rowResult = false ->
  Forall (fun lastcols =>
            (Rows_Scan (positioned_on lastcols) (makeRow typeMapping cols)).2 = None)
         (rs_pending rowResult) ->
  exists recs rowResult',
    rowResultWalk_loop cols typeMapping rowResult result =
      Returned (match rs_fault rowResult with
                | Some err => (None, Some err)
                | None => (Some (result ++ recs), None)
                end, rowResult') /\
    Forall2 (fun lastcols rec =>
               getResultantRow cols typeMapping (positioned_on lastcols)
                 = Returned (Some rec, None))
            (rs_pending rowResult) recs.
Proof.
  remember (rs_pending rowResult) as pending eqn:Hp.
  revert rowResult result Hp.
  induction pending as [|lastcols pending IH]; intros rs result Hp Hopen Hall;
    rewrite rowResultWalk_loop_step, (Rows_Next_open rs Hopen), <- Hp.
  - unfold Rows_Err; simpl. exists []. rewrite app_nil_r.
    destruct (rs_fault rs); eauto.
  - inversion Hall as [|? ? Hok Hall']; subst.
    match goal with |- context [getResultantRow cols typeMapping ?r] => set (rs1 := r) end.
    rewrite (getResultantRow_positioned cols typeMapping rs1 lastcols eq_refl).
    destruct (getResultantRow_cases cols typeMapping (positioned_on lastcols))
      as [(e & Hs & _)|(rec & _ & Hr & _)]; [congruence|].
    rewrite Hr.
    destruct (IH rs1 (result ++ [default ∅ (Some rec)]) eq_refl eq_refl Hall')
      as (recs & rs' & -> & HF).
    exists (rec :: recs), rs'. simpl. rewrite <- app_assoc. split; [done | by constructor].
Qed.

(** The loop hands back a result or an error, never both and never
    neither. *)
Lemma rowResultWalk_loop_result_or_error (cols : list string)
    (typeMapping : gmap string string) (rowResult : Rows) (result : list GenericRecord) :
  rs_closed rowResult = false ->
  exists ret rowResult',
    rowResultWalk_loop cols typeMapping rowResult result = Returned (ret, rowResult') /\
    ((exists out, ret = (Some out, None)) \/ (exists err, ret = (None, Some err))).
Proof.
  remember (rs_pending rowResult) as pending eqn:Hp.
  revert rowResult result Hp.
  induction pending as [|lastcols pending IH]; intros rs result Hp Hopen;
    rewrite rowResultWalk_loop_step, (Rows_Next_open rs Hopen), <- Hp.
  - unfold Rows_Err; simpl. destruct (rs_fault rs); eauto 8.
  - match goal with |- context [getResultantRow cols typeMapping ?r] => set (rs1 := r) end.
    destruct (getResultantRow_cases cols typeMapping rs1) as [(e & _ & ->)|(rec & _ & -> & _)].
    + eauto 8.
    + by apply IH.
Qed.

(** What [parseRowResults] returns when the metadata can be read and
    every pending row scans. *)
Lemma parseRowResults_all_rows (rowResult : Rows) :
  (Rows_Columns rowResult).2 = None ->
  (Rows_ColumnTypes rowResult).2 = None ->
  Forall (fun lastcols =>
            (Rows_Scan (positioned_on lastcols)
               (makeRow (mapColTypes (rs_columns rowResult))
                        (ct_Name <$> rs_columns rowResult))).2 = None)
         (rs_pending rowResult) ->
  exists records,
    returned_values (parseRowResults rowResult) =
      Some (match rs_fault rowResult with
            | Some err => (None, Some err)
            | None => (Some records, None)
            end) /\
    Forall2 (fun lastcols rec =>
               getResultantRow (ct_Name <$> rs_columns rowResult)
                 (mapColTypes (rs_columns rowResult)) (positioned_on lastcols)
                 = Returned (Some rec, None))
            (rs_pending rowResult) records.
Proof.
  intros Hc Ht Hall.
  apply Rows_Columns_open in Hc.
  rewrite (parseRowResults_open rowResult Hc). unfold rowResultWalk.
  destruct (rowResultWalk_loop_all_rows _ _ rowResult [] Hc Hall) as (recs & rs' & -> & HF).
  exists recs. split; [|done]. by destruct (rs_fault rowResult).
Qed.

(** What [parseRowResults] returns when a pending row fails to scan. *)
Lemma parseRowResults_row_error (rowResult : Rows)
    (before after : list (list driver_Value)) (bad : list driver_Value) (err : error) :
  (Rows_Columns rowResult).2 = None ->
  (Rows_ColumnTypes rowResult).2 = None ->
  rs_pending rowResult = before ++ bad :: after ->
  Forall (fun lastcols =>
            (Rows_Scan (positioned_on lastcols)
               (makeRow (mapColTypes (rs_columns rowResult))
                        (ct_Name <$> rs_columns rowResult))).2 = None) before ->
  (Rows_Scan (positioned_on bad)
     (makeRow (mapColTypes (rs_columns rowResult))
              (ct_Name <$> rs_columns rowResult))).2 = Some err ->
  returned_values (parseRowResults rowResult) = Some (None, Some err).
Proof.
  intros Hc Ht Hp Hbefore Hbad.
  apply Rows_Columns_open in Hc.
  rewrite (parseRowResults_open rowResult Hc). unfold rowResultWalk.
  destruct (rowResultWalk_loop_row_error _ _ rowResult [] before after bad err
              Hc Hp Hbefore Hbad) as (rs' & -> & _).
  reflexivity.
Qed.

(** X1.  When the column names and types can be read, every pending row
    scans and the stream ends without a fault, the walk returns a nil
    error and one record per row, in the order of the rows; each record
    is built from its own row alone. *)
Theorem walk_returns_one_record_per_row (rowResult : Rows) :
  (Rows_Columns rowResult).2 = None ->
  (Rows_ColumnTypes rowResult).2 = None ->
  rs_fault rowResult = None ->
  Forall (fun lastcols =>
            (Rows_Scan (positioned_on lastcols)
               (makeRow (mapColTypes (rs_columns rowResult))
                        (ct_Name <$> rs_columns rowResult))).2 = None)
         (rs_pending rowResult) ->
  exists records,
    returned_values (parseRowResults rowResult) = Some (Some records, None) /\
    length records = length (rs_pending rowResult) /\
    Forall2 (fun lastcols rec =>
               getResultantRow (ct_Name <$> rs_columns rowResult)
                 (mapColTypes (rs_columns rowResult)) (positioned_on lastcols)
                 = Returned (Some rec, None))
            (rs_pending rowResult) records.
Proof.
  intros Hc Ht Hf Hall.
  destruct (parseRowResults_all_rows rowResult Hc Ht Hall) as (records & Hret & HF).
  rewrite Hf in Hret. exists records. split; [done|]. split; [|done].
  symmetry. by eapply Forall2_length.
Qed.

(** X2.  When the stream ends on a fault, the walk returns that fault and
    a nil result, even though every row before it was materialized. *)
Theorem terminal_fault_discards_rows (rowResult : Rows) (err : error) :
  (Rows_Columns rowResult).2 = None ->
  (Rows_ColumnTypes rowResult).2 = None ->
  rs_fault rowResult = Some err ->
  Forall (fun lastcols =>
            (Rows_Scan (positioned_on lastcols)
               (makeRow (mapColTypes (rs_columns rowResult))
                        (ct_Name <$> rs_columns rowResult))).2 = None)
         (rs_pending rowResult) ->
  returned_values (parseRowResults rowResult) = Some (None, Some err).
Proof.
  intros Hc Ht Hf Hall.
  destruct (parseRowResults_all_rows rowResult Hc Ht Hall) as (records & Hret & _).
  by rewrite Hf in Hret.
Qed.

(** X3.  [parseRowResults] never panics, whatever the cursor holds (rows
    of any length, any values), and returns either a result with a nil
    error or a nil result with an error. *)
Theorem parseRowResults_result_or_error (rowResult : Rows) :
  exists rowResult',
    (exists records, parseRowResults rowResult = Returned ((Some records, None), rowResult')) \/
    (exists err, parseRowResults rowResult = Returned ((None, Some err), rowResult')).
Proof.
  pose proof (parseRowResults_paths rowResult) as H.
  destruct (rs_closed rowResult) eqn:Hopen; [by eauto|]. clear H.
  rewrite (parseRowResults_open rowResult Hopen). unfold rowResultWalk.
  destruct (rowResultWalk_loop_result_or_error (ct_Name <$> rs_columns rowResult)
              (mapColTypes (rs_columns rowResult)) rowResult [] Hopen)
    as (ret & rs' & -> & [[out ->]|[e ->]]); simpl; eauto.
Qed.

End WalkerMore.

Section MaterializerMore.
Context {RT : Runtime}.

(** X4.  A current row that has more or fewer values than there are
    columns is not truncated or padded: [getResultantRow] returns the
    arity error of [Scan] and no record. *)
Theorem column_count_mismatch_is_an_error (cols : list string)
    (typeMapping : gmap string string) (rs : Rows) (lastcols : list driver_Value) :
  rs_lastcols rs = Some lastcols ->
  length lastcols <> length cols ->
  getResultantRow cols typeMapping rs =
    Returned (None, Some (sql_ScanArity (length lastcols) (length cols))).
Proof.
  intros Hrs Hlen. unfold getResultantRow, Rows_Scan. rewrite Hrs, makeRow_length.
  destruct (Nat.eqb_spec (length cols) (length lastcols)) as [Heq|_]; [congruence|].
  reflexivity.
Qed.

(** X5.  A column that is not NULL in the current row (and is the last
    column of its name) is recorded as the plain value its holder was
    given: the converted integer for an integer kind, the converted
    float for a float kind, the converted string otherwise. *)
Theorem non_null_column_is_unwrapped (cols : list string) (typeMapping : gmap string string)
    (rs : Rows) (lastcols : list driver_Value) (i : nat) (name : string)
    (sv : driver_Value) (rec : GenericRecord) :
  rs_lastcols rs = Some lastcols ->
  getResultantRow cols typeMapping rs = Returned (Some rec, None) ->
  cols !! i = Some name ->
  lastcols !! i = Some sv ->
  sv <> DNil ->
  (forall j, (i < j)%nat -> cols !! j <> Some name) ->
  match switch_kind (typeMapping_at typeMapping name) with
  | KNullInt64 => exists z, convertAssign_int64 sv = inr z /\ rec !! name = Some (IInt64 z)
  | KNullFloat64 => exists f, convertAssign_float64 sv = inr f /\ rec !! name = Some (IFloat64 f)
  | KNullString => exists s, convertAssign_string sv = inr s /\ rec !! name = Some (IString s)
  end.
Proof.
  intros Hrs H Hcol Hsv Hnn Hlast.
  destruct (getResultantRow_cases cols typeMapping rs) as [(e & _ & He)|(rec' & Hs & Hr & Hloop)];
    [congruence|].
  assert (rec' = rec) as -> by congruence.
  destruct (Rows_Scan rs (makeRow typeMapping cols)) as [row err] eqn:Hscan; simpl in *; subst err.
  pose proof Hscan as Hscan'.
  apply Rows_Scan_ok in Hscan as (lastcols' & Hl & Hlen & ->).
  assert (lastcols' = lastcols) as -> by congruence.
  unfold Rows_Scan in Hscan'. rewrite Hrs in Hscan'.
  destruct (negb _); [discriminate|].
  set (d := newCol (switch_kind (typeMapping_at typeMapping name))).
  assert (Hd : makeRow typeMapping cols !! i = Some d)
    by (by rewrite makeRow_fmap, list_lookup_fmap, Hcol).
  pose proof (Scan_loop_conversions _ _ _ _ Hscan' i d sv Hd Hsv) as Hconv.
  assert (Hrec : rec !! name = Some (getRowValue (convertAssignRows d sv).1)).
  { eapply (getResultantRow_loop_hit cols _ 0 ∅ rec name i); [exact Hloop| |done|done].
    by rewrite lookup_zip_with, Hd, Hsv. }
  subst d. destruct (switch_kind (typeMapping_at typeMapping name)); simpl in *.
  - unfold NullInt64_Scan in *. destruct sv; try done;
      destruct (convertAssign_int64 _) as [e|z']; simpl in *; try discriminate; eauto.
  - unfold NullFloat64_Scan in *. destruct sv; try done;
      destruct (convertAssign_float64 _) as [e|f']; simpl in *; try discriminate; eauto.
  - unfold NullString_Scan in *. destruct sv; try done;
      destruct (convertAssign_string _) as [e|s']; simpl in *; try discriminate; eauto.
Qed.

(** X6.  The keys of the record of a row are exactly the column names:
    no key is missing and none is added. *)
Theorem record_keys_are_the_columns (cols : list string) (typeMapping : gmap string string)
    (rs : Rows) (rec : GenericRecord) :
  getResultantRow cols typeMapping rs = Returned (Some rec, None) ->
  dom rec = list_to_set cols.
Proof.
  intros H. apply set_eq. intros name.
  rewrite elem_of_dom, elem_of_list_to_set. split.
  - intros Hsome. destruct (decide (name ∈ cols)) as [|Hnot]; [done|]. exfalso.
    destruct (getResultantRow_cases cols typeMapping rs)
      as [(e & _ & He)|(rec' & _ & Hr & Hloop)]; [congruence|].
    assert (rec' = rec) as -> by congruence.
    rewrite (getResultantRow_loop_miss cols _ 0 ∅ rec name Hloop) in Hsome.
    + rewrite lookup_empty in Hsome. by destruct Hsome.
    + intros j _ Hj. apply Hnot. apply list_elem_of_lookup. by exists j.
  - intros Hin. destruct (getResultantRow_keys cols typeMapping rs rec name H Hin) as (v & -> & _).
    by eexists.
Qed.

End MaterializerMore.

(* ===================================================================== *)
(** * The type mapping *)
(* ===================================================================== *)

Lemma mapColTypes_fold (colTypes : list ColumnType) (acc : gmap string string)
    (name : string) :
  fold_left (fun typeMapping v => <[ct_Name v := ct_DatabaseTypeName v]> typeMapping)
            colTypes acc !! name =
  match last_named name colTypes with
  | Some c => Some (ct_DatabaseTypeName c)
  | None => acc !! name
  end.
Proof.
  unfold last_named. revert acc.
  induction colTypes as [|c colTypes IH]; intros acc; simpl; [done|].
  rewrite IH, filter_cons. clear IH.
  destruct (decide (ct_Name c = name)) as [Heq|Hne].
  - rewrite last_cons. destruct (last (filter _ colTypes)); [done|].
    by rewrite <- Heq, lookup_insert_eq.
  - destruct (last (filter _ colTypes)); [done|]. by rewrite lookup_insert_ne.
Qed.

(** The type name recorded for a column name is the one of the last
    descriptor of that name. *)
Lemma mapColTypes_lookup (colTypes : list ColumnType) (name : string) :
  mapColTypes colTypes !! name = ct_DatabaseTypeName <$> last_named name colTypes.
Proof.
  unfold mapColTypes. rewrite mapColTypes_fold.
  destruct (last_named name colTypes); by rewrite ?lookup_empty.
Qed.

Lemma last_named_NoDup (colTypes : list ColumnType) (c : ColumnType) :
  NoDup (ct_Name <$> colTypes) -> c ∈ colTypes ->
  last_named (ct_Name c) colTypes = Some c.
Proof.
  unfold last_named. induction colTypes as [|c0 colTypes IH]; intros Hnd Hin.
  - by apply elem_of_nil in Hin.
  - rewrite fmap_cons in Hnd. apply NoDup_cons in Hnd as [Hnotin Hnd].
    rewrite filter_cons. apply elem_of_cons in Hin as [->|Hin].
    + rewrite decide_True by done.
      assert (Hnil : filter (fun c : ColumnType => ct_Name c = ct_Name c0) colTypes = []).
      { destruct (filter _ colTypes) as [|x l] eqn:Hf; [done|]. exfalso.
        assert (Hx : x ∈ filter (fun c : ColumnType => ct_Name c = ct_Name c0) colTypes)
          by (rewrite Hf; left).
        apply list_elem_of_filter in Hx as [Heq Hx]. apply Hnotin.
        rewrite <- Heq. by apply list_elem_of_fmap_2. }
      by rewrite Hnil.
    + rewrite decide_False.
      * by apply IH.
      * intros Heq. apply Hnotin. rewrite Heq. by apply list_elem_of_fmap_2.
Qed.

Lemma makeRow_lookup_last_named (colTypes : list ColumnType) (i : nat)
    (c c' : ColumnType) :
  colTypes !! i = Some c ->
  last_named (ct_Name c) colTypes = Some c' ->
  makeRow (mapColTypes colTypes) (ct_Name <$> colTypes) !! i =
    Some (newCol (switch_kind (ct_DatabaseTypeName c'))).
Proof.
  intros Hi Hlast.
  rewrite makeRow_fmap, !list_lookup_fmap, Hi. simpl.
  unfold typeMapping_at. by rewrite mapColTypes_lookup, Hlast.
Qed.

(** X7.  The holder allocated for a column has the kind of the type of
    the last descriptor that carries the column's name: when two columns
    share a name, both are scanned with the type of the later one. *)
Theorem holder_kind_follows_last_descriptor (colTypes : list ColumnType) (i : nat)
    (c c' : ColumnType) :
  colTypes !! i = Some c ->
  last_named (ct_Name c) colTypes = Some c' ->
  makeRow (mapColTypes colTypes) (ct_Name <$> colTypes) !! i =
    Some (newCol (switch_kind (ct_DatabaseTypeName c'))).
Proof.
  apply makeRow_lookup_last_named.
Qed.

(** X8.  When the column names are distinct, every column gets the
    holder of its own reported type, in column order. *)
Theorem holder_kinds_of_distinct_columns (colTypes : list ColumnType) :
  NoDup (ct_Name <$> colTypes) ->
  makeRow (mapColTypes colTypes) (ct_Name <$> colTypes) =
    (fun c => newCol (switch_kind (ct_DatabaseTypeName c))) <$> colTypes.
Proof.
  intros Hnd. apply list_eq. intros i. rewrite list_lookup_fmap.
  destruct (colTypes !! i) as [c|] eqn:Hi; simpl.
  - apply (makeRow_lookup_last_named colTypes i c c Hi).
    apply last_named_NoDup; [done|]. by eapply list_elem_of_lookup_2.
  - rewrite makeRow_fmap, !list_lookup_fmap, Hi. done.
Qed.

(* ===================================================================== *)
(** * More on the connection facade *)
(* ===================================================================== *)

Section FacadeMore.
Context {RT : Runtime}.

(** [QueryRaw] on a live connection: the error of the query, or the walk
    of its cursor. *)
Lemma QueryRaw_on_connection (d : Database) (conn : DB) (query : string)
    (escaped : option (list iface)) :
  connection d = Some conn ->
  QueryRaw d query escaped =
  match db_Query conn query (default [] escaped) with
  | (_, Some err) => Returned (None, Some err)
  | (None, None) => Aborted RuntimePanic
  | (Some rowResult, None) =>
      match parseRowResults rowResult with
      | Returned (ret, _) => Returned ret
      | Aborted why => Aborted why
      end
  end.
Proof.
  intros Hc. unfold QueryRaw, getRowResult, getRows. rewrite Hc.
  destruct escaped as [args|]; simpl;
    destruct (db_Query conn query _) as [[rs|] [e|]]; simpl; reflexivity.
Qed.

Lemma QueryRaw_returned_values (d : Database) (conn : DB) (query : string)
    (escaped : option (list iface)) (rowResult : Rows)
    (ret : option (list GenericRecord) * option error) :
  connection d = Some conn ->
  db_Query conn query (default [] escaped) = (Some rowResult, None) ->
  returned_values (parseRowResults rowResult) = Some ret ->
  QueryRaw d query escaped = Returned ret.
Proof.
  intros Hc Hq Hret. rewrite (QueryRaw_on_connection d conn) by done. rewrite Hq.
  destruct (parseRowResults rowResult) as [[ret' rs']|]; simpl in *; congruence.
Qed.

(** X9.  When the query itself fails, [QueryRaw], [Row] and
    [RowByStringField] return the error of the driver as it is, with a
    nil result; [Row] does not turn it into "no result". *)
Theorem query_error_surfaces (d : Database) (conn : DB) (query : string) (arg : iface)
    (rows : option Rows) (err : error) :
  connection d = Some conn ->
  db_Query conn query [arg] = (rows, Some err) ->
  QueryRaw d query (Some [arg]) = Returned (None, Some err) /\
  (forall id, arg = IInt64 id -> Row d query id = Returned (None, Some err)) /\
  (forall field, arg = IString field ->
     RowByStringField d query field = Returned (None, Some err)).
Proof.
  intros Hc Hq.
  assert (H : QueryRaw d query (Some [arg]) = Returned (None, Some err))
    by (rewrite (QueryRaw_on_connection d conn) by done; simpl; rewrite Hq; by destruct rows).
  split; [done|]. split.
  - intros id ->. unfold Row. by rewrite H.
  - intros field ->. unfold RowByStringField. by rewrite H.
Qed.

(** X10.  [Row] and [RowByStringField] materialize every row of the
    cursor before they pick the first: when a later row fails to scan,
    they return that error and not the first row. *)
Theorem single_row_lookup_walks_every_row (d : Database) (conn : DB) (query : string)
    (arg : iface) (rowResult : Rows) (first : list driver_Value)
    (before after : list (list driver_Value)) (bad : list driver_Value) (err : error) :
  connection d = Some conn ->
  db_Query conn query [arg] = (Some rowResult, None) ->
  (Rows_Columns rowResult).2 = None ->
  (Rows_ColumnTypes rowResult).2 = None ->
  rs_pending rowResult = (first :: before) ++ bad :: after ->
  Forall (fun lastcols =>
            (Rows_Scan (positioned_on lastcols)
               (makeRow (mapColTypes (rs_columns rowResult))
                        (ct_Name <$> rs_columns rowResult))).2 = None) (first :: before) ->
  (Rows_Scan (positioned_on bad)
     (makeRow (mapColTypes (rs_columns rowResult))
              (ct_Name <$> rs_columns rowResult))).2 = Some err ->
  (forall id, arg = IInt64 id -> Row d query id = Returned (None, Some err)) /\
  (forall field, arg = IString field ->
     RowByStringField d query field = Returned (None, Some err)).
Proof.
  intros Hc Hq Hce Hte Hp Hbefore Hbad.
  assert (H : QueryRaw d query (Some [arg]) = Returned (None, Some err)).
  { eapply (QueryRaw_returned_values d conn query (Some [arg])); [done..|].
    by eapply parseRowResults_row_error. }
  split.
  - intros id ->. unfold Row. by rewrite H.
  - intros field ->. unfold RowByStringField. by rewrite H.
Qed.

(** X11.  When every row of the cursor scans and the stream ends without
    a fault, [Row] and [RowByStringField] return "no result" for an
    empty cursor and otherwise the record of the first row of the
    cursor, with a nil error. *)
Theorem single_row_lookup_returns_first_row (d : Database) (conn : DB) (query : string)
    (arg : iface) (rowResult : Rows) :
  connection d = Some conn ->
  db_Query conn query [arg] = (Some rowResult, None) ->
  (Rows_Columns rowResult).2 = None ->
  (Rows_ColumnTypes rowResult).2 = None ->
  rs_fault rowResult = None ->
  Forall (fun lastcols =>
            (Rows_Scan (positioned_on lastcols)
               (makeRow (mapColTypes (rs_columns rowResult))
                        (ct_Name <$> rs_columns rowResult))).2 = None)
         (rs_pending rowResult) ->
  exists ret,
    match rs_pending rowResult with
    | [] => ret = (None, Some (errors_New "no result"))
    | first :: _ =>
        exists rec, ret = (Some rec, None) /\
          getResultantRow (ct_Name <$> rs_columns rowResult)
            (mapColTypes (rs_columns rowResult)) (positioned_on first)
            = Returned (Some rec, None)
    end /\
    (forall id, arg = IInt64 id -> Row d query id = Returned ret) /\
    (forall field, arg = IString field -> RowByStringField d query field = Returned ret).
Proof.
  intros Hc Hq Hce Hte Hf Hall.
  destruct (parseRowResults_all_rows rowResult Hce Hte Hall) as (records & Hret & HF).
  rewrite Hf in Hret.
  pose proof (QueryRaw_returned_values d conn query (Some [arg]) rowResult _ Hc Hq Hret) as H.
  destruct HF as [|first rec pending records Hfirst HF].
  - exists (None, Some (errors_New "no result")). split; [done|]. split.
    + intros id ->. unfold Row. by rewrite H.
    + intros field ->. unfold RowByStringField. by rewrite H.
  - exists (Some rec, None). split; [by exists rec|]. split.
    + intros id ->. unfold Row. by rewrite H.
    + intros field ->. unfold RowByStringField. by rewrite H.
Qed.

(** ** [CheckHasTable] *)

Lemma single_column_record (key name : string) :
  (forall s, convertAssign_string (DBytes s) = inr s) ->
  getResultantRow [key] (mapColTypes [mkColumnType key "VARCHAR"])
    (positioned_on [DBytes name]) = Returned (Some {[ key := IString name ]}, None).
Proof.
  intros Hconv. unfold getResultantRow, mapColTypes, makeRow, typeMapping_at; simpl.
  rewrite lookup_insert_eq; simpl.
  change (switch_kind "VARCHAR") with KNullString.
  unfold Rows_Scan; simpl. rewrite Hconv. simpl. reflexivity.
Qed.

Lemma CheckHasTable_loop_names (key table : string) (names : list string) :
  CheckHasTable_loop ((fun n => {[ key := IString n ]}) <$> names) key table
  = bool_decide (table ∈ names).
Proof.
  induction names as [|n names IH]; [done|].
  rewrite fmap_cons. cbn [CheckHasTable_loop]. rewrite lookup_singleton_eq.
  rewrite IH. simpl.
  destruct (String.eqb_spec n table) as [->|Hne].
  - symmetry. apply bool_decide_eq_true. left.
  - apply bool_decide_ext. rewrite elem_of_cons. split; [by right | by intros [?|?]].
Qed.

(** X12.  On a connection whose [SHOW TABLES] lists the table names in
    one text column named [Tables_in_<schema>], [CheckHasTable] answers
    whether the table is among them, with a nil error; an empty list
    gives false. *)
Theorem CheckHasTable_finds_listed_names (d : Database) (conn : DB) (rowResult : Rows)
    (names : list string) (table : string) :
  connection d = Some conn ->
  db_Query conn "SHOW TABLES" [] = (Some rowResult, None) ->
  rs_columns rowResult = [mkColumnType ("Tables_in_" +:+ Name d) "VARCHAR"] ->
  (Rows_Columns rowResult).2 = None ->
  (Rows_ColumnTypes rowResult).2 = None ->
  rs_fault rowResult = None ->
  rs_pending rowResult = (fun n => [DBytes n]) <$> names ->
  (forall s, convertAssign_string (DBytes s) = inr s) ->
  CheckHasTable d table = Returned (bool_decide (table ∈ names), None).
Proof.
  intros Hc Hq Hcols Hce Hte Hf Hp Hconv.
  set (key := "Tables_in_" +:+ Name d) in *.
  assert (Hall : Forall (fun lastcols =>
            (Rows_Scan (positioned_on lastcols)
               (makeRow (mapColTypes (rs_columns rowResult))
                        (ct_Name <$> rs_columns rowResult))).2 = None)
         (rs_pending rowResult)).
  { rewrite Hp, Hcols. apply Forall_fmap, Forall_forall. intros n _. simpl.
    pose proof (single_column_record key n Hconv) as Hrec.
    destruct (getResultantRow_cases [key] (mapColTypes [mkColumnType key "VARCHAR"])
                (positioned_on [DBytes n])) as [(e & _ & He)|(rec & Hs & _)]; [congruence|done]. }
  destruct (parseRowResults_all_rows rowResult Hce Hte Hall) as (records & Hret & HF).
  rewrite Hf in Hret. rewrite Hp, Hcols in HF. simpl in HF.
  assert (Hrecords : records = (fun n => {[ key := IString n ]}) <$> names).
  { clear -HF Hconv. revert records HF.
    induction names as [|n names IH]; intros records HF; simpl in *.
    - by inversion HF.
    - inversion HF as [|? rec ? recs Hrec HF']; subst.
      rewrite (single_column_record key n Hconv) in Hrec. inversion Hrec; subst.
      f_equal. by apply IH. }
  unfold CheckHasTable.
  rewrite (QueryRaw_returned_values d conn "SHOW TABLES" None rowResult _ Hc Hq Hret).
  subst records. cbn [mbind outcome_bind obind default]. fold key. unfold id.
  rewrite length_fmap. destruct names as [|n names].
  - reflexivity.
  - cbn [length Nat.ltb Nat.leb]. by rewrite CheckHasTable_loop_names.
Qed.

(** The [Row] and [RowByStringField] of [src/database.go] run the query
    and hand its cursor, or its error, over unread: they report no
    "no result" of their own. *)
Lemma SqlRow_hands_over_the_query (d : Database) (conn : DB) (query : string)
    (id : Z) (field : string) :
  connection d = Some conn ->
  SqlRow.Row d query id =
    Returned (mkRow (db_Query conn query [IInt64 id]).1 (db_Query conn query [IInt64 id]).2) /\
  SqlRow.RowByStringField d query field =
    Returned (mkRow (db_Query conn query [IString field]).1
                    (db_Query conn query [IString field]).2).
Proof.
  intros Hc. unfold SqlRow.Row, SqlRow.RowByStringField, DB_QueryRow. rewrite Hc.
  split; by destruct (db_Query conn query _).
Qed.

End FacadeMore.

(* ===================================================================== *)
(** * More on the configuration *)
(* ===================================================================== *)

Section ConfigMore.
Context {RT : Runtime}.

Lemma fold_per_field_explicit (values : list string) (explicit : string) :
  explicit <> "" -> fold_left per_field values explicit = explicit.
Proof.
  intros Hne. induction values as [|v values IH]; simpl; [done|].
  by rewrite per_field_explicit.
Qed.

(** X13.  Whatever entries the loop of [supplementConfigs] meets, and in
    whatever order (unknown keys, repeated keys), [setConfigs] never
    changes a field of the configs that is not empty, nor the connection
    or the [Schemaless] flag. *)
Theorem explicit_fields_survive (visit : list (string * string)) (d : Database)
    (schemaless : bool) (field : Configs -> string) :
  field ∈ config_fields ->
  field (configs d) <> "" ->
  field (configs (setConfigs visit d schemaless)) = field (configs d) /\
  connection (setConfigs visit d schemaless) = connection d /\
  Schemaless (setConfigs visit d schemaless) = Schemaless d.
Proof.
  intros Hfield Hne. unfold setConfigs.
  destruct (hasAllConfigs d schemaless); [done|].
  rewrite supplementConfigs_spec. simpl. split; [|done].
  unfold config_fields in Hfield.
  repeat (apply elem_of_cons in Hfield as [-> | Hfield];
          [simpl; try destruct schemaless; by rewrite ?fold_per_field_explicit|]).
  by apply elem_of_nil in Hfield.
Qed.

Lemma per_field_not_empty (explicit fromEnv : string) :
  fromEnv <> "" -> per_field explicit fromEnv <> "".
Proof. unfold per_field. by destruct (String.eqb_spec explicit ""). Qed.

(** X14.  When the environment defines every variable ([DB_DATABASE] is
    only needed outside schemaless mode), the configs are complete
    after [setConfigs], whatever was missing before. *)
Theorem complete_environment_completes_configs (visit : list (string * string))
    (d : Database) (schemaless : bool) :
  range_of envConfigs visit ->
  os_Getenv "DB_HOST" <> "" ->
  os_Getenv "DB_USERNAME" <> "" ->
  os_Getenv "DB_PASSWORD" <> "" ->
  os_Getenv "DB_PORT" <> "" ->
  os_Getenv "DB_CONNECTION" <> "" ->
  (schemaless = false -> os_Getenv "DB_DATABASE" <> "") ->
  hasAllConfigs (setConfigs visit d schemaless) schemaless = true.
Proof.
  intros Hvisit Hh Hu Hpw Hpo Hdr Hdb.
  rewrite setConfigs_spec by done. unfold hasAllConfigs, supplemented; simpl.
  rewrite !len_gt_0.
  rewrite (proj2 (String.eqb_neq _ _) (per_field_not_empty (cfg_Host (configs d)) _ Hh)).
  rewrite (proj2 (String.eqb_neq _ _) (per_field_not_empty (cfg_Username (configs d)) _ Hu)).
  rewrite (proj2 (String.eqb_neq _ _) (per_field_not_empty (cfg_Password (configs d)) _ Hpw)).
  rewrite (proj2 (String.eqb_neq _ _) (per_field_not_empty (cfg_Port (configs d)) _ Hpo)).
  rewrite (proj2 (String.eqb_neq _ _) (per_field_not_empty (cfg_Driver (configs d)) _ Hdr)).
  destruct schemaless; simpl; [done|].
  by rewrite (proj2 (String.eqb_neq _ _)
                (per_field_not_empty (cfg_Database (configs d)) _ (Hdb eq_refl))).
Qed.

(** X15.  Binding a schemaless instance to a schema gives the instance
    that [Make] builds for the same configs with that schema: when
    [MakeSchemaless] returns [db] and [SetSchema db schemaName] returns
    [db'], then [Make], given the configs with [schemaName] as their
    database, returns [db']. *)
Theorem SetSchema_after_MakeSchemaless_is_Make (visit : list (string * string))
    (explicit : Configs) (schemaName : string) (db db' : Database) (err : option error) :
  range_of envConfigs visit ->
  schemaName <> "" ->
  MakeSchemaless visit explicit = Returned (db, err) ->
  SetSchema db schemaName = Returned db' ->
  Make visit (mkConfigs (cfg_Host explicit) (cfg_Username explicit) (cfg_Password explicit)
                        (cfg_Port explicit) schemaName (cfg_Driver explicit))
    = Returned (db', None).
Proof.
  intros Hvisit Hne Hmk Hset.
  unfold MakeSchemaless, Make in *. rewrite setConfigs_spec in * by done. simpl in *.
  unfold connect in Hmk. simpl in Hmk.
  destruct (sql_Open _ _) as [conn0 [e0|]] eqn:Hopen0; simpl in Hmk; [discriminate|].
  inversion Hmk; subst db err. clear Hmk.
  unfold SetSchema, connect, with_configs, connectionString in *. simpl in *.
  rewrite (per_field_explicit schemaName _ Hne).
  match type of Hset with
  | context [sql_Open ?a ?b] => destruct (sql_Open a b) as [conn1 [e1|]] eqn:Hopen1
  end; simpl in *; [discriminate|].
  inversion Hset. unfold supplemented; simpl.
  by rewrite (per_field_explicit schemaName _ Hne).
Qed.

(** ** [getEnvVars] *)

Lemma getEnvVars_fold_miss (input : list (string * string)) (acc : gmap string string)
    (name : string) :
  name ∉ input.*1 ->
  fold_left (fun result '(inputName, varName) => <[inputName := os_Getenv varName]> result)
            input acc !! name = acc !! name.
Proof.
  revert acc. induction input as [|[k v] input IH]; intros acc Hnot; simpl; [done|].
  rewrite fmap_cons in Hnot. apply not_elem_of_cons in Hnot as [Hk Hnot].
  rewrite IH by done. by apply lookup_insert_ne.
Qed.

Lemma getEnvVars_fold_hit (input : list (string * string)) (acc : gmap string string)
    (name var : string) :
  NoDup input.*1 -> (name, var) ∈ input ->
  fold_left (fun result '(inputName, varName) => <[inputName := os_Getenv varName]> result)
            input acc !! name = Some (os_Getenv var).
Proof.
  revert acc. induction input as [|[k v] input IH]; intros acc Hnd Hin; simpl.
  - by apply elem_of_nil in Hin.
  - rewrite fmap_cons in Hnd. apply NoDup_cons in Hnd as [Hk Hnd].
    apply elem_of_cons in Hin as [[= -> ->]|Hin].
    + rewrite getEnvVars_fold_miss by done. apply lookup_insert_eq.
    + by apply IH.
Qed.

(** X16.  For an input map (its keys are distinct), [getEnvVars] binds
    every key to the value of its environment variable and nothing else,
    and the result is the same in whatever order the input is ranged
    over. *)
Theorem getEnvVars_lookup (input visit : list (string * string)) :
  NoDup input.*1 ->
  visit ≡ₚ input ->
  getEnvVars visit = getEnvVars input /\
  (forall name var, (name, var) ∈ input -> getEnvVars visit !! name = Some (os_Getenv var)) /\
  (forall name, name ∉ input.*1 -> getEnvVars visit !! name = None).
Proof.
  intros Hnd Hperm.
  assert (Hnd' : NoDup visit.*1) by (by rewrite Hperm).
  assert (Hhit : forall l name var, NoDup l.*1 -> (name, var) ∈ l ->
                   getEnvVars l !! name = Some (os_Getenv var))
    by (intros; by apply getEnvVars_fold_hit).
  assert (Hmiss : forall l name, name ∉ l.*1 -> getEnvVars l !! name = None).
  { intros l name Hn. unfold getEnvVars. rewrite getEnvVars_fold_miss by done.
    apply lookup_empty. }
  split; [|split].
  - apply map_eq. intros name.
    destruct (decide (name ∈ input.*1)) as [Hin|Hnot].
    + apply list_elem_of_fmap in Hin as ([k var] & -> & Hin). simpl.
      rewrite (Hhit input k var) by done.
      apply Hhit; [done|]. by rewrite Hperm.
    + rewrite (Hmiss input) by done. apply Hmiss. by rewrite Hperm.
  - intros name var Hin. apply Hhit; [done|]. by rewrite Hperm.
  - intros name Hnot. apply Hmiss. by rewrite Hperm.
Qed.

End ConfigMore.

(* ===================================================================== *)
(** * More on the record helpers *)
(* ===================================================================== *)

Lemma append_cons (x : ascii) (a b : string) : String x a +:+ b = String x (a +:+ b).
Proof. reflexivity. Qed.

Lemma append_nil_l (b : string) : "" +:+ b = b.
Proof. reflexivity. Qed.

Lemma append_assoc (a b c : string) : (a +:+ b) +:+ c = a +:+ (b +:+ c).
Proof.
  induction a as [|x a IH]; [reflexivity|].
  by rewrite !append_cons, IH.
Qed.

Lemma append_nil_r (a : string) : a +:+ "" = a.
Proof.
  induction a as [|x a IH]; [reflexivity|].
  by rewrite append_cons, IH.
Qed.

(** [TrimRight] stops at the last character that is not in the cutset. *)
Lemma TrimRight_app (s t cutset : string) (c : ascii) :
  in_cutset c cutset = false ->
  TrimRight t cutset = "" ->
  TrimRight (s +:+ String c t) cutset = s +:+ String c "".
Proof.
  intros Hc Ht. induction s as [|x s IH].
  - rewrite !append_nil_l. simpl. by rewrite Ht, Hc.
  - rewrite !append_cons. simpl. rewrite IH.
    destruct s; [by rewrite append_nil_l | by rewrite append_cons].
Qed.

Lemma set_clause_cons (f : string) (fields : list string) :
  set_clause (f :: fields) = f +:+ " = ?, " +:+ set_clause fields.
Proof. reflexivity. Qed.

Lemma Join_cons_cons (e e' sep : string) (rest : list string) :
  Join (e :: e' :: rest) sep = e +:+ sep +:+ Join (e' :: rest) sep.
Proof. reflexivity. Qed.

Lemma set_clause_Join (fields : list string) :
  fields <> [] ->
  set_clause fields = Join ((fun f => f +:+ " = ?") <$> fields) ", " +:+ ", ".
Proof.
  induction fields as [|f fields IH]; [done|]. intros _.
  rewrite set_clause_cons. destruct fields as [|g fields].
  - change (set_clause []) with "". rewrite !fmap_cons, fmap_nil.
    change (Join [f +:+ " = ?"] ", ") with (f +:+ " = ?").
    rewrite append_assoc. reflexivity.
  - rewrite IH by done. rewrite !fmap_cons, Join_cons_cons.
    by rewrite !append_assoc.
Qed.

Lemma Join_ends_with_placeholder (fields : list string) :
  fields <> [] ->
  exists x, Join ((fun f => f +:+ " = ?") <$> fields) ", " = x +:+ "?".
Proof.
  induction fields as [|f fields IH]; [done|]. intros _.
  destruct fields as [|g fields].
  - exists (f +:+ " = "). rewrite fmap_cons, fmap_nil.
    change (Join [f +:+ " = ?"] ", ") with (f +:+ " = ?").
    rewrite append_assoc. reflexivity.
  - destruct IH as [x Hx]; [done|].
    exists ((f +:+ " = ?") +:+ ", " +:+ x).
    rewrite fmap_cons in Hx. rewrite !fmap_cons, Join_cons_cons, Hx.
    by rewrite !append_assoc.
Qed.

(** Trimming the [SET] list leaves the fields joined by [", "]. *)
Lemma TrimRight_set_clause (head : string) (fields : list string) :
  fields <> [] ->
  TrimRight (head +:+ set_clause fields) ", " =
  head +:+ Join ((fun f => f +:+ " = ?") <$> fields) ", ".
Proof.
  intros Hne. rewrite set_clause_Join by done.
  destruct (Join_ends_with_placeholder fields Hne) as [x ->].
  rewrite <- !append_assoc.
  rewrite (append_assoc (head +:+ x) "?" ", ").
  change ("?" +:+ ", ") with (String "?" ", ").
  by rewrite (TrimRight_app (head +:+ x) ", " ", " "?").
Qed.

(** What the loop of [Update] has accumulated at its end. *)
Lemma Update_fold (id : string) (visit : list (string * iface))
    (updateStatement where_ : string) (inserts : list iface) :
  fold_left (fun '(updateStatement, where_, inserts) '(field, value) =>
               if String.eqb field id
               then (updateStatement, where_ +:+ id +:+ " = ?;", inserts)
               else (updateStatement +:+ field +:+ " = ?, ", where_, inserts ++ [value]))
            visit (updateStatement, where_, inserts) =
  (updateStatement +:+ set_clause (filter (fun kv => kv.1 <> id) visit).*1,
   where_ +:+ fold_right (fun _ rest => id +:+ " = ?;" +:+ rest) ""
                         (filter (fun kv => kv.1 = id) visit),
   inserts ++ (filter (fun kv => kv.1 <> id) visit).*2).
Proof.
  revert updateStatement where_ inserts.
  induction visit as [|[field value] visit IH]; intros u w ins; simpl.
  - by rewrite !append_nil_r, app_nil_r.
  - rewrite !filter_cons; simpl.
    destruct (String.eqb_spec field id) as [->|Hne].
    + rewrite IH. rewrite (decide_True (P := id = id)) by done.
      rewrite (decide_False (P := id <> id)) by (by intros ?).
      simpl. by rewrite !append_assoc.
    + rewrite IH. rewrite (decide_False (P := field = id)) by done.
      rewrite (decide_True (P := field <> id)) by done.
      simpl. by rewrite !append_assoc, <- app_assoc.
Qed.

Lemma Update_hands_query (visit : list (string * iface)) (r : Record_) (id : string) :
  Update visit r id =
  Exec (database r) (Update_query visit r id).1 (Some (Update_query visit r id).2)
    ≫= last_insert_id_of.
Proof.
  unfold Update, Update_query.
  destruct (fold_left _ visit _) as [[u w] ins]. simpl.
  destruct (Exec _ _ _) as [[insert [err|]]|]; simpl; try done.
  by destruct insert.
Qed.

Lemma filter_key_NoDup {V : Type} (l : list (string * V)) (k : string) (v : V) :
  NoDup l.*1 -> (k, v) ∈ l -> filter (fun kv => kv.1 = k) l = [(k, v)].
Proof.
  induction l as [|[k0 v0] l IH]; intros Hnd Hin.
  - by apply elem_of_nil in Hin.
  - rewrite fmap_cons in Hnd. apply NoDup_cons in Hnd as [Hnotin Hnd].
    simpl in Hnotin. rewrite filter_cons; simpl.
    apply elem_of_cons in Hin as [[= -> ->]|Hin].
    + rewrite decide_True by done. f_equal.
      destruct (filter _ l) as [|x l'] eqn:Hf; [done|]. exfalso.
      assert (Hx : x ∈ filter (fun kv : string * V => kv.1 = k0) l) by (rewrite Hf; left).
      apply list_elem_of_filter in Hx as [Heq Hx]. apply Hnotin.
      rewrite <- Heq. by apply (list_elem_of_fmap_2 fst).
    + rewrite decide_False; [by apply IH|].
      intros ->. apply Hnotin. by apply (list_elem_of_fmap_2 fst) in Hin.
Qed.

Lemma filter_key_absent {V : Type} (l : list (string * V)) (k : string) :
  k ∉ l.*1 ->
  filter (fun kv => kv.1 = k) l = [] /\ filter (fun kv => kv.1 <> k) l = l.
Proof.
  induction l as [|[k0 v0] l IH]; intros Hnot; [done|].
  rewrite fmap_cons in Hnot. apply not_elem_of_cons in Hnot as [Hk Hnot].
  destruct (IH Hnot) as [H1 H2].
  rewrite !filter_cons; simpl. rewrite decide_False, decide_True by done.
  by rewrite H1, H2.
Qed.

(** Without fields the trimmed head of the statement ends on [SET]. *)
Lemma TrimRight_SET (x : string) :
  TrimRight (x +:+ "` SET ") ", " = x +:+ "` SET".
Proof.
  change "` SET " with ("` SE" +:+ String "T" " ").
  rewrite <- append_assoc.
  rewrite (TrimRight_app (x +:+ "` SE") " " ", " "T") by reflexivity.
  by rewrite append_assoc.
Qed.

(** X17.  For a record that has the key column (the column the argument
    names, or "id" when the argument is the empty string) and at least
    one other property, [Update] executes
    [UPDATE `schema`.`table` SET f1 = ?, ..., fn = ? WHERE key = ?;]
    where [f1 ... fn] are the other properties in the order of the
    visit, with their values in the same order followed by the value of
    the key; the key column is not in the [SET] list. *)
Theorem Update_statement (visit : list (string * iface)) (r : Record_) (id : string)
    (keyValue : iface) :
  range_of (properties r) visit ->
  properties r !! key_column id = Some keyValue ->
  filter (fun kv => kv.1 <> key_column id) visit <> [] ->
  Update visit r id =
  Exec (database r)
    ("UPDATE `" +:+ Name (database r) +:+ "`.`" +:+ table r +:+ "` SET " +:+
     Join ((fun f => f +:+ " = ?") <$>
             (filter (fun kv => kv.1 <> key_column id) visit).*1) ", " +:+
     " WHERE " +:+ key_column id +:+ " = ?;")
    (Some ((filter (fun kv => kv.1 <> key_column id) visit).*2 ++ [keyValue]))
    ≫= last_insert_id_of.
Proof.
  unfold key_column. set (key := if Nat.ltb (len id) 1 then "id" else id).
  intros Hvisit Hkey Hother.
  rewrite Update_hands_query. unfold Update_query. fold key.
  rewrite Update_fold, Hkey.
  assert (Hin : (key, keyValue) ∈ visit).
  { unfold range_of in Hvisit. rewrite Hvisit. by apply elem_of_map_to_list. }
  assert (Hnd : NoDup visit.*1).
  { unfold range_of in Hvisit. rewrite Hvisit. apply NoDup_fst_map_to_list. }
  rewrite (filter_key_NoDup visit key keyValue Hnd Hin).
  set (others := filter (fun kv : string * iface => kv.1 <> key) visit) in *.
  assert (Hfields : others.*1 <> []) by (by destruct others).
  cbn [fst snd default foldr fold_right app].
  rewrite (TrimRight_set_clause _ others.*1 Hfields).
  by rewrite !append_assoc, append_nil_r.
Qed.

(** X18.  For a record that lacks the key column (the column the
    argument names, or "id" when the argument is the empty string),
    [Update] still executes a statement: every property goes into the
    [SET] list (a record without properties leaves the list empty, the
    statement reading [UPDATE `schema`.`table` SET WHERE ]), the text
    after [WHERE] is empty, and nil is bound as one more argument than
    there are placeholders. *)
Theorem Update_without_key_column (visit : list (string * iface)) (r : Record_)
    (id : string) :
  range_of (properties r) visit ->
  properties r !! key_column id = None ->
  Update visit r id =
  Exec (database r)
    ("UPDATE `" +:+ Name (database r) +:+ "`.`" +:+ table r +:+ "` SET" +:+
     (match visit with
      | [] => ""
      | _ :: _ => " " +:+ Join ((fun f => f +:+ " = ?") <$> visit.*1) ", "
      end) +:+
     " WHERE ")
    (Some (visit.*2 ++ [INil]))
    ≫= last_insert_id_of.
Proof.
  unfold key_column. set (key := if Nat.ltb (len id) 1 then "id" else id).
  intros Hvisit Hkey.
  rewrite Update_hands_query. unfold Update_query. fold key.
  rewrite Update_fold, Hkey.
  assert (Hnot : key ∉ visit.*1).
  { unfold range_of in Hvisit. rewrite Hvisit. intros Hin.
    apply list_elem_of_fmap in Hin as ([k v] & -> & Hin).
    apply elem_of_map_to_list in Hin. simpl in Hkey. congruence. }
  destruct (filter_key_absent visit key Hnot) as [-> ->].
  cbn [fst snd default foldr fold_right app].
  destruct visit as [|kv visit].
  - change (set_clause ([] : list (string * iface)).*1) with "".
    rewrite append_nil_r, <- !append_assoc, TrimRight_SET.
    by rewrite !append_assoc.
  - assert (Hfields : (kv :: visit).*1 <> []) by done.
    rewrite (TrimRight_set_clause _ (kv :: visit).*1 Hfields).
    rewrite !append_assoc. reflexivity.
Qed.

(** ** [Create] *)

Lemma Create_fold (visit : list (string * iface)) (inserts : option (list iface))
    (fields valuesEscapes : list string) :
  fold_left (fun '(inserts, fields, valuesEscapes) '(field, value) =>
               (Some (default [] inserts ++ [value]), fields ++ [field],
                valuesEscapes ++ ["?"]))
            visit (inserts, fields, valuesEscapes) =
  (match visit with
   | [] => inserts
   | _ => Some (default [] inserts ++ visit.*2)
   end,
   fields ++ visit.*1,
   valuesEscapes ++ replicate (length visit) "?").
Proof.
  revert inserts fields valuesEscapes.
  induction visit as [|[field value] visit IH]; intros ins f q; simpl.
  - by rewrite !app_nil_r.
  - rewrite IH. simpl. rewrite <- !app_assoc. simpl.
    by destruct visit.
Qed.

Lemma Create_hands_query (visit : list (string * iface)) (r : Record_) :
  Create visit r =
  Exec (database r) (Create_query visit r).1 (Create_query visit r).2 ≫= last_insert_id_of.
Proof.
  unfold Create, Create_query.
  destruct (fold_left _ visit _) as [[ins f] q]. simpl.
  destruct (Exec _ _ _) as [[insert [err|]]|]; simpl; try done.
  by destruct insert.
Qed.

Lemma has_char_app (c : ascii) (a b : string) :
  has_char c (a +:+ b) = has_char c a || has_char c b.
Proof.
  induction a as [|x a IH]; [reflexivity|].
  rewrite append_cons. simpl. by rewrite IH, orb_assoc.
Qed.

Lemma has_char_Join (c : ascii) (elems : list string) (sep : string) :
  Forall (fun e => has_char c e = false) elems ->
  has_char c sep = false ->
  has_char c (Join elems sep) = false.
Proof.
  intros Hall Hsep. induction Hall as [|e elems He Hall IH]; [reflexivity|].
  destruct elems as [|e' elems]; [done|].
  rewrite Join_cons_cons, !has_char_app, He, Hsep. exact IH.
Qed.

Lemma string_prefix_cons (a b : ascii) (s1 s2 : string) :
  String.prefix (String a s1) (String b s2) =
  if ascii_dec a b then String.prefix s1 s2 else false.
Proof. reflexivity. Qed.

Lemma string_prefix_app (old b : string) : String.prefix old (old +:+ b) = true.
Proof.
  induction old as [|x old IH]; [by destruct b|].
  rewrite append_cons, string_prefix_cons. destruct (ascii_dec x x); [exact IH|done].
Qed.

Lemma string_drop_app (old b : string) : string_drop (String.length old) (old +:+ b) = b.
Proof. induction old as [|x old IH]; [by destruct b|exact IH]. Qed.

Lemma Replace_1_cons (c : ascii) (s old new : string) :
  Replace_1 (String c s) old new =
  if String.prefix old (String c s)
  then new +:+ string_drop (String.length old) (String c s)
  else String c (Replace_1 s old new).
Proof. reflexivity. Qed.

(** [Replace_1] leaves a text without ["@"] in front of the subject
    alone, and replaces a pattern that starts the subject. *)
Lemma Replace_1_skip (a s old' new : string) :
  has_char "@" a = false ->
  Replace_1 (a +:+ s) (String "@" old') new = a +:+ Replace_1 s (String "@" old') new.
Proof.
  intros Ha. induction a as [|c a IH]; [reflexivity|].
  simpl in Ha. apply orb_false_elim in Ha as [Hc Ha].
  rewrite !append_cons, Replace_1_cons, string_prefix_cons.
  destruct (ascii_dec "@" c) as [<-|_]; [discriminate|].
  by rewrite IH.
Qed.

Lemma Replace_1_here (old' b new : string) :
  Replace_1 (String "@" old' +:+ b) (String "@" old') new = new +:+ b.
Proof.
  rewrite append_cons, Replace_1_cons, <- append_cons.
  by rewrite string_prefix_app, string_drop_app.
Qed.

(** X19.  When neither the schema name, the table name nor a property
    name contains ["@"], [Create] executes
    [INSERT INTO `schema`.`table` (`f1`, ..., `fn`) VALUES (?, ..., ?)]
    with the property names in the order of the visit, as many
    placeholders, and the values in the same order (no argument at all
    for a record without properties), and returns what [LastInsertId]
    reports. *)
Theorem Create_statement (visit : list (string * iface)) (r : Record_) :
  has_char "@" (Name (database r)) = false ->
  has_char "@" (table r) = false ->
  Forall (fun kv => has_char "@" kv.1 = false) visit ->
  Create visit r =
  Exec (database r)
    ("INSERT INTO `" +:+ Name (database r) +:+ "`.`" +:+ table r +:+ "` (`" +:+
     Join visit.*1 "`, `" +:+ "`) VALUES (" +:+
     Join (replicate (length visit) "?") ", " +:+ ")")
    (match visit with [] => None | _ => Some visit.*2 end)
    ≫= last_insert_id_of.
Proof.
  intros Hname Htable Hfields.
  rewrite Create_hands_query. unfold Create_query. rewrite Create_fold.
  cbn [fst snd default app].
  set (F := Join visit.*1 "`, `"). set (Q := Join (replicate (length visit) "?") ", ").
  assert (HF : has_char "@" F = false).
  { apply has_char_Join; [|reflexivity]. by apply Forall_fmap. }
  change "` (`@fields`) VALUES (@values)"
    with ("` (`" +:+ "@fields" +:+ "`) VALUES (@values)").
  rewrite (Replace_1_skip "INSERT INTO `") by reflexivity.
  rewrite (Replace_1_skip (Name (database r))) by done.
  rewrite (Replace_1_skip "`.`") by reflexivity.
  rewrite (Replace_1_skip (table r)) by done.
  rewrite (Replace_1_skip "` (`") by reflexivity.
  rewrite Replace_1_here.
  change "`) VALUES (@values)" with ("`) VALUES (" +:+ "@values" +:+ ")").
  rewrite (Replace_1_skip "INSERT INTO `") by reflexivity.
  rewrite (Replace_1_skip (Name (database r))) by done.
  rewrite (Replace_1_skip "`.`") by reflexivity.
  rewrite (Replace_1_skip (table r)) by done.
  rewrite (Replace_1_skip "` (`") by reflexivity.
  rewrite (Replace_1_skip F) by done.
  rewrite (Replace_1_skip "`) VALUES (") by reflexivity.
  rewrite Replace_1_here.
  by destruct visit.
Qed.

(* ===================================================================== *)
(** * Instances on the seeded table *)
(* ===================================================================== *)

Lemma walk_returns_one_record_per_row_witness :
  exists records,
    returned_values (parseRowResults (RT := Sample.runtime) Sample.two_rows)
      = Some (Some records, None) /\
    length records = 2%nat /\
    Forall2 (fun lastcols rec =>
               getResultantRow (RT := Sample.runtime) ["sku"; "weight"]
                 (mapColTypes [Sample.sku; Sample.weight]) (positioned_on lastcols)
                 = Returned (Some rec, None))
            (rs_pending Sample.two_rows) records.
Proof.
  apply (walk_returns_one_record_per_row (RT := Sample.runtime) Sample.two_rows).
  - reflexivity.
  - reflexivity.
  - reflexivity.
  - repeat constructor.
Defined.

Lemma terminal_fault_discards_rows_witness :
  returned_values (parseRowResults (RT := Sample.runtime) Sample.broken_stream)
    = Some (None, Some (sql_error "unexpected EOF")).
Proof.
  apply (terminal_fault_discards_rows (RT := Sample.runtime) Sample.broken_stream).
  - reflexivity.
  - reflexivity.
  - reflexivity.
  - repeat constructor.
Defined.

Lemma column_count_mismatch_is_an_error_witness :
  getResultantRow (RT := Sample.runtime) ["sku"; "weight"]
    (mapColTypes [Sample.sku; Sample.weight]) (positioned_on [DBytes "WIDG1"])
  = Returned (None, Some (sql_ScanArity 1 2)).
Proof.
  apply (column_count_mismatch_is_an_error (RT := Sample.runtime) ["sku"; "weight"]
           (mapColTypes [Sample.sku; Sample.weight]) (positioned_on [DBytes "WIDG1"])
           [DBytes "WIDG1"]).
  - reflexivity.
  - simpl. lia.
Defined.

Lemma non_null_column_is_unwrapped_witness :
  let rec : GenericRecord :=
    {[ "sku" := IString "WIDG3"; "weight" := IFloat64 Sample.weight_1_23 ]} in
  exists f, convertAssign_float64 (Runtime := Sample.runtime) (DFloat64 Sample.weight_1_23)
              = inr f /\
            rec !! "weight" = Some (IFloat64 f).
Proof.
  apply (non_null_column_is_unwrapped (RT := Sample.runtime) ["sku"; "weight"]
           (mapColTypes [Sample.sku; Sample.weight])
           (positioned_on [DBytes "WIDG3"; DFloat64 Sample.weight_1_23])
           [DBytes "WIDG3"; DFloat64 Sample.weight_1_23] 1 "weight"
           (DFloat64 Sample.weight_1_23)).
  - reflexivity.
  - vm_compute; reflexivity.
  - reflexivity.
  - reflexivity.
  - discriminate.
  - intros [|[|j]] Hj; simpl; [lia | lia | ].
    destruct j; discriminate.
Defined.

Lemma record_keys_are_the_columns_witness :
  dom ({[ "sku" := IString "WIDG3"; "weight" := IFloat64 Sample.weight_1_23 ]} : GenericRecord)
  = list_to_set ["sku"; "weight"].
Proof.
  apply (record_keys_are_the_columns (RT := Sample.runtime) ["sku"; "weight"]
           (mapColTypes [Sample.sku; Sample.weight])
           (positioned_on [DBytes "WIDG3"; DFloat64 Sample.weight_1_23])).
  vm_compute; reflexivity.
Defined.

Lemma holder_kind_follows_last_descriptor_witness :
  makeRow (mapColTypes Sample.two_ids) (ct_Name <$> Sample.two_ids) !! 0%nat
  = Some (newCol KNullString).
Proof.
  apply (holder_kind_follows_last_descriptor Sample.two_ids 0 Sample.id Sample.joined_id).
  - reflexivity.
  - vm_compute; reflexivity.
Defined.

Lemma holder_kinds_of_distinct_columns_witness :
  makeRow (mapColTypes [Sample.sku; Sample.description; Sample.weight])
          ["sku"; "description"; "weight"]
  = [newCol KNullString; newCol KNullString; newCol KNullFloat64].
Proof.
  apply (holder_kinds_of_distinct_columns [Sample.sku; Sample.description; Sample.weight]).
  apply (bool_decide_unpack _). vm_compute. exact I.
Defined.

Lemma query_error_surfaces_witness :
  Row (RT := Sample.runtime) Sample.shop "select * from gadgets where id = ?" 7
  = Returned (None, Some (sql_error "Error 1064: You have an error in your SQL syntax")).
Proof.
  destruct (query_error_surfaces (RT := Sample.runtime) Sample.shop Sample.conn
              "select * from gadgets where id = ?" (IInt64 7) None
              (sql_error "Error 1064: You have an error in your SQL syntax")
              eq_refl eq_refl) as (_ & HRow & _).
  exact (HRow 7 eq_refl).
Defined.

Lemma single_row_lookup_walks_every_row_witness :
  Row (RT := Sample.runtime) (Sample.shop_on Sample.bad_second_row) Sample.by_id 1
  = Returned (None, Some (sql_ScanColumn 0 (sql_error "converting driver.Value to a int64"))).
Proof.
  destruct (single_row_lookup_walks_every_row (RT := Sample.runtime)
              (Sample.shop_on Sample.bad_second_row) (Sample.conn_of Sample.bad_second_row)
              Sample.by_id (IInt64 1) Sample.bad_second_row
              [DInt64 1; DBytes "WIDG1"] [] [[DInt64 3; DBytes "WIDG3"]]
              [DBytes "two"; DBytes "WIDG2"]
              (sql_ScanColumn 0 (sql_error "converting driver.Value to a int64")))
    as [HRow _].
  - reflexivity.
  - reflexivity.
  - reflexivity.
  - reflexivity.
  - reflexivity.
  - repeat constructor.
  - vm_compute; reflexivity.
  - exact (HRow 1 eq_refl).
Defined.

Lemma single_row_lookup_returns_first_row_witness :
  exists ret,
    (exists rec, ret = (Some rec, None) /\
       getResultantRow (RT := Sample.runtime) ["sku"; "weight"]
         (mapColTypes [Sample.sku; Sample.weight])
         (positioned_on [DBytes "WIDG3"; DFloat64 Sample.weight_1_23])
       = Returned (Some rec, None)) /\
    RowByStringField (RT := Sample.runtime) (Sample.shop_on Sample.two_rows)
      Sample.by_description "Widget Three" = Returned ret.
Proof.
  destruct (single_row_lookup_returns_first_row (RT := Sample.runtime)
              (Sample.shop_on Sample.two_rows) (Sample.conn_of Sample.two_rows)
              Sample.by_description (IString "Widget Three") Sample.two_rows)
    as (ret & Hret & _ & HField).
  - reflexivity.
  - reflexivity.
  - reflexivity.
  - reflexivity.
  - reflexivity.
  - repeat constructor.
  - exists ret. split; [exact Hret | exact (HField "Widget Three" eq_refl)].
Defined.

Lemma CheckHasTable_finds_listed_names_witness :
  CheckHasTable (RT := Sample.runtime) (Sample.shop_on Sample.show_tables) "widgets"
    = Returned (true, None) /\
  CheckHasTable (RT := Sample.runtime) (Sample.shop_on Sample.show_tables) "gadgets"
    = Returned (false, None).
Proof.
  split.
  - apply (CheckHasTable_finds_listed_names (RT := Sample.runtime)
             (Sample.shop_on Sample.show_tables) (Sample.conn_of Sample.show_tables)
             Sample.show_tables ["users"; "widgets"] "widgets"); reflexivity.
  - apply (CheckHasTable_finds_listed_names (RT := Sample.runtime)
             (Sample.shop_on Sample.show_tables) (Sample.conn_of Sample.show_tables)
             Sample.show_tables ["users"; "widgets"] "gadgets"); reflexivity.
Defined.

Lemma explicit_fields_survive_witness :
  let d := mkDatabase None (mkConfigs "db.local" "" "" "" "" "") false in
  cfg_Host (configs (setConfigs Sample.stray_visit d false)) = "db.local" /\
  connection (setConfigs Sample.stray_visit d false) = None /\
  Schemaless (setConfigs Sample.stray_visit d false) = false.
Proof.
  apply (explicit_fields_survive Sample.stray_visit
           (mkDatabase None (mkConfigs "db.local" "" "" "" "" "") false) false cfg_Host).
  - left.
  - discriminate.
Defined.

Lemma complete_environment_completes_configs_witness :
  hasAllConfigs
    (setConfigs Sample.env_visit
       (mkDatabase None (mkConfigs "" "" "" "" "" "") true) true) true = true.
Proof.
  apply (complete_environment_completes_configs (RT := Sample.runtime) Sample.env_visit).
  - unfold range_of. apply (bool_decide_unpack _). vm_compute. exact I.
  - vm_compute. discriminate.
  - vm_compute. discriminate.
  - vm_compute. discriminate.
  - vm_compute. discriminate.
  - vm_compute. discriminate.
  - discriminate.
Defined.

Lemma SetSchema_after_MakeSchemaless_is_Make_witness :
  Make (RT := Sample.runtime) Sample.env_visit (mkConfigs "" "" "" "" "shop" "")
  = Returned (Sample.shop, None).
Proof.
  apply (SetSchema_after_MakeSchemaless_is_Make (RT := Sample.runtime) Sample.env_visit
           (mkConfigs "" "" "" "" "" "") "shop"
           (mkDatabase (Some Sample.conn)
              (mkConfigs "127.0.0.1" "root" "secret" "3306" "" "mysql") true)
           Sample.shop None).
  - unfold range_of. apply (bool_decide_unpack _). vm_compute. exact I.
  - discriminate.
  - vm_compute; reflexivity.
  - vm_compute; reflexivity.
Defined.

Lemma getEnvVars_lookup_witness :
  getEnvVars (RT := Sample.runtime) (reverse Sample.env_names)
    = getEnvVars (RT := Sample.runtime) Sample.env_names /\
  (forall name var, (name, var) ∈ Sample.env_names ->
     getEnvVars (RT := Sample.runtime) (reverse Sample.env_names) !! name
       = Some (os_Getenv (Runtime := Sample.runtime) var)) /\
  (forall name, name ∉ Sample.env_names.*1 ->
     getEnvVars (RT := Sample.runtime) (reverse Sample.env_names) !! name = None).
Proof.
  apply (getEnvVars_lookup (RT := Sample.runtime) Sample.env_names (reverse Sample.env_names)).
  - apply (bool_decide_unpack _). vm_compute. exact I.
  - apply (bool_decide_unpack _). vm_compute. exact I.
Defined.

Lemma Update_statement_witness :
  Update Sample.widg4_visit Sample.widg4 "sku" =
    Exec Sample.shop "UPDATE `shop`.`widgets` SET weight = ? WHERE sku = ?;"
         (Some [IFloat64 Sample.weight_110_9; IString "WIDG4"])
      ≫= last_insert_id_of /\
  Update Sample.widg7_visit Sample.widg7 "" =
    Exec Sample.shop "UPDATE `shop`.`widgets` SET weight = ? WHERE id = ?;"
         (Some [IFloat64 Sample.weight_110_9; IInt64 7])
      ≫= last_insert_id_of.
Proof.
  split.
  - apply (Update_statement Sample.widg4_visit Sample.widg4 "sku" (IString "WIDG4")).
    + unfold range_of. apply (bool_decide_unpack _). vm_compute. exact I.
    + vm_compute; reflexivity.
    + vm_compute. discriminate.
  - apply (Update_statement Sample.widg7_visit Sample.widg7 "" (IInt64 7)).
    + unfold range_of. apply (bool_decide_unpack _). vm_compute. exact I.
    + vm_compute; reflexivity.
    + vm_compute. discriminate.
Defined.

Lemma Update_without_key_column_witness :
  Update Sample.widg4_visit Sample.widg4 "" =
    Exec Sample.shop "UPDATE `shop`.`widgets` SET weight = ?, sku = ? WHERE "
         (Some [IFloat64 Sample.weight_110_9; IString "WIDG4"; INil])
      ≫= last_insert_id_of /\
  Update [] Sample.no_properties "sku" =
    Exec Sample.shop "UPDATE `shop`.`widgets` SET WHERE " (Some [INil])
      ≫= last_insert_id_of.
Proof.
  split.
  - apply (Update_without_key_column Sample.widg4_visit Sample.widg4 "").
    + unfold range_of. apply (bool_decide_unpack _). vm_compute. exact I.
    + vm_compute; reflexivity.
  - apply (Update_without_key_column [] Sample.no_properties "sku").
    + unfold range_of. apply (bool_decide_unpack _). vm_compute. exact I.
    + vm_compute; reflexivity.
Defined.

Lemma Create_statement_witness :
  Create Sample.widg4_visit Sample.widg4 =
  Exec Sample.shop "INSERT INTO `shop`.`widgets` (`weight`, `sku`) VALUES (?, ?)"
       (Some [IFloat64 Sample.weight_110_9; IString "WIDG4"])
    ≫= last_insert_id_of.
Proof.
  apply (Create_statement Sample.widg4_visit Sample.widg4).
  - reflexivity.
  - reflexivity.
  - repeat constructor.
Defined.
